(** * sol-fee-distributor: the scheduled fee distribution job

    A shallow embedding of [ScheduledTasksService]
    (src/scheduled-tasks.service.ts, the version with the retry loop and
    the threshold query) and the properties of one reconciliation pass.

    Conventions of the embedding.
    - SQL tables are lists of rows, one record type per table, columns
      under their SQL names.
    - [numeric] columns and JavaScript numbers are the rationals they
      denote ([Q]); [parseFloat] is the identity and the rounding of IEEE
      doubles is not part of the model.  [Math.floor] is [Qfloor].
    - The Solana cluster and the failures of the local database are an
      environment: for each batch and each attempt it says how the
      attempt ends.  The reads of the pass's own client (the cursor, the
      aggregation, MAX(id)) are taken to succeed.
    - The two loops of the executor carry fuel, which they are proved
      never to use up. *)

From Stdlib Require Import List String ZArith QArith Qround Bool Arith Lia.
Import ListNotations.

Local Open Scope string_scope.
Local Open Scope Z_scope.
Local Open Scope list_scope.

(** ** Tables *)

Module Transactions.
Record row := { id : Z; coin_id : string; sol_quantity : Q }.
End Transactions.

Module Coins.
Record row := { mint_address : string; creator_wallet_address : string }.
End Coins.

Module Tracker.
(** [max_transaction_id] is nullable: it receives [MAX(id)], which is
    NULL on an empty table. *)
Record row := { max_transaction_id : option Z; timestamp : Z }.
End Tracker.

Module FeeDistributions.
Record row :=
  { receiver_address : string; transaction_hash : string; amount : Q }.
End FeeDistributions.

Module Users.
Record row := { wallet_address : string; fees_claimed_so_far : Q }.
End Users.

Record Database := {
  transactions : list Transactions.row;
  coins : list Coins.row;
  transaction_tracker : list Tracker.row;
  fee_distributions : list FeeDistributions.row;
  users : list Users.row
}.

(** ** The aggregation query

    [WITH accumulated_fees AS (SELECT c.creator_wallet_address,
       SUM(t.sol_quantity * 0.002) AS total_sol
     FROM transactions t JOIN coins c ON t.coin_id = c.mint_address
     WHERE t.id > $1 GROUP BY c.creator_wallet_address
     HAVING SUM(t.sol_quantity * 0.002) >= 0.001) ...] *)

Definition FEE_RATE : Q := 2 # 1000.
Definition MIN_AMOUNT_THRESHOLD : Q := 1 # 1000.

Record FeeRow := { creator : string; total_sol : Q }.

Fixpoint Qsum (l : list Q) : Q :=
  match l with
  | [] => 0%Q
  | q :: l' => (q + Qsum l')%Q
  end.

(** [FROM transactions t JOIN coins c ON t.coin_id = c.mint_address
    WHERE t.id > $1]: one row per matching pair, as the creator and the
    quantity of the pair. *)
Definition join_row (cs : list Coins.row) (t : Transactions.row)
  : list (string * Q) :=
  map (fun c => (Coins.creator_wallet_address c, Transactions.sol_quantity t))
      (filter (fun c => String.eqb (Transactions.coin_id t) (Coins.mint_address c)) cs).

Definition joined (since : Z) (db : Database) : list (string * Q) :=
  flat_map (fun t => if Transactions.id t >? since then join_row (coins db) t else [])
           (transactions db).

(** [GROUP BY c.creator_wallet_address]: the groups, each key once.  SQL
    leaves their order open; here it is the order of last occurrence. *)
Definition group_keys (rows : list (string * Q)) : list string :=
  nodup string_dec (map fst rows).

(** [SUM(t.sol_quantity * 0.002)] over the group of [k]. *)
Definition group_sum (rows : list (string * Q)) (k : string) : Q :=
  Qsum (map (fun r => (snd r * FEE_RATE)%Q)
            (filter (fun r => String.eqb (fst r) k) rows)).

Definition accumulated_fees (since : Z) (db : Database) : list FeeRow :=
  let rows := joined since db in
  filter (fun r => Qle_bool MIN_AMOUNT_THRESHOLD (total_sol r))
         (map (fun k => {| creator := k; total_sol := group_sum rows k |})
              (group_keys rows)).

(** ** The payment executor: [sendSolanaTransactions] *)

Definition BATCH_SIZE : nat := 10.
Definition FEE_ADJUSTMENT : Q := 99 # 100.
Definition MAX_RETRIES : nat := 3.
Definition RETRY_DELAY : Z := 2000.
Definition LAMPORTS_PER_SOL : Q := 1000000000 # 1.

(** An element of [distributions]. *)
Record Distribution := { recipient : string; amount : Q }.

(** [SystemProgram.transfer({fromPubkey, toPubkey, lamports})]. *)
Record Transfer := { fromPubkey : string; toPubkey : string; lamports : Z }.

(** The [Transaction] handed to [sendTransaction]: the instructions added
    in the loop, then [recentBlockhash] and [feePayer].  It has no other
    field. *)
Record SolTransaction := {
  instructions : list Transfer;
  recentBlockhash : string;
  feePayer : string
}.

Inductive Error :=
| InvalidPublicKey        (* new PublicKey(dist.recipient) throws *)
| BlockhashError          (* getLatestBlockhash throws *)
| SendError               (* sendTransaction throws *)
| ConfirmationError       (* confirmTransaction throws: expired or timed out *)
| TransactionFailed       (* confirmation.value.err is set *)
| DbError                 (* a query of a pool client throws *)
| FuelExhausted.          (* never produced, see [sendSolanaTransactions_total] *)

Inductive Completion := Returned | Threw (e : Error).

(** How the local database behaves in one write transaction: [Some k]
    makes the query number [k] (from 0: BEGIN, then INSERT and UPDATE for
    each distribution, then COMMIT) throw. *)
Definition DbOutcome := option nat.

Definition throws_now (o : DbOutcome) : bool :=
  match o with Some O => true | _ => false end.

Definition after_query (o : DbOutcome) : DbOutcome :=
  match o with Some (S k) => Some k | _ => None end.

(** How the cluster answers one attempt. *)
Inductive Attempt :=
| BlockhashThrows
| SendThrows (blockhash : string)
| ConfirmThrows (blockhash signature : string) (landed : bool)
| ConfirmErr (blockhash signature : string)
| Confirmed (blockhash signature : string) (o : DbOutcome).

Inductive Level := LOG | WARN | ERROR.

Inductive Effect :=
| Submitted (tx : SolTransaction)      (* sendTransaction was called *)
| Slept (ms : Z)                       (* setTimeout(resolve, ms) *)
| Logged (l : Level) (msg : string).

(** What a pass can change: the database, the transfers that landed on the
    cluster (signature and transaction) and the observable effects. *)
Record World := {
  db : Database;
  chain : list (string * SolTransaction);
  trace : list Effect
}.

Definition with_db (w : World) (d : Database) : World :=
  {| db := d; chain := chain w; trace := trace w |}.

Definition emit (e : Effect) (w : World) : World :=
  {| db := db w; chain := chain w; trace := trace w ++ [e] |}.

Definition land (sig : string) (tx : SolTransaction) (w : World) : World :=
  {| db := db w; chain := chain w ++ [(sig, tx)]; trace := trace w |}.

Section Service.

(** The fee master's public key and the addresses [new PublicKey]
    accepts. *)
Variable feeMaster : string.
Variable isPublicKey : string -> bool.

(** [Math.floor(dist.amount * LAMPORTS_PER_SOL * FEE_ADJUSTMENT)]. *)
Definition adjustedAmount (dist : Distribution) : Z :=
  Qfloor (amount dist * LAMPORTS_PER_SOL * FEE_ADJUSTMENT).

Definition transfer_of (dist : Distribution) : Transfer :=
  {| fromPubkey := feeMaster;
     toPubkey := recipient dist;
     lamports := adjustedAmount dist |}.

Definition build_transaction (batch : list Distribution) (blockhash : string)
  : SolTransaction :=
  {| instructions := map transfer_of batch;
     recentBlockhash := blockhash;
     feePayer := feeMaster |}.

(** [INSERT INTO fee_distributions (receiver_address, transaction_hash,
    amount) VALUES ($1, $2, $3)]. *)
Definition insert_distribution (sig : string) (dist : Distribution)
           (d : Database) : Database :=
  {| transactions := transactions d;
     coins := coins d;
     transaction_tracker := transaction_tracker d;
     fee_distributions :=
       fee_distributions d ++
       [ {| FeeDistributions.receiver_address := recipient dist;
            FeeDistributions.transaction_hash := sig;
            FeeDistributions.amount := amount dist |} ];
     users := users d |}.

(** [UPDATE users SET fees_claimed_so_far = fees_claimed_so_far + $1
    WHERE wallet_address = $2]: every row of that wallet, none created. *)
Definition claim (dist : Distribution) (u : Users.row) : Users.row :=
  if String.eqb (Users.wallet_address u) (recipient dist)
  then {| Users.wallet_address := Users.wallet_address u;
          Users.fees_claimed_so_far :=
            (Users.fees_claimed_so_far u + amount dist)%Q |}
  else u.

Definition update_user (dist : Distribution) (d : Database) : Database :=
  {| transactions := transactions d;
     coins := coins d;
     transaction_tracker := transaction_tracker d;
     fee_distributions := fee_distributions d;
     users := map (claim dist) (users d) |}.

(** The body of [for (const dist of batch)] inside the local
    transaction; [None] when a query threw. *)
Fixpoint write_batch (sig : string) (batch : list Distribution)
         (o : DbOutcome) (work : Database) : option (Database * DbOutcome) :=
  match batch with
  | [] => Some (work, o)
  | dist :: rest =>
      if throws_now o then None
      else
        let work := insert_distribution sig dist work in
        let o := after_query o in
        if throws_now o then None
        else write_batch sig rest (after_query o) (update_user dist work)
  end.

(** BEGIN, the writes, COMMIT; on any throw ROLLBACK, which leaves the
    database as it was. *)
Definition record_batch (sig : string) (batch : list Distribution)
           (o : DbOutcome) (d : Database) : Database * Completion :=
  if throws_now o then (d, Threw DbError)
  else
    match write_batch sig batch (after_query o) d with
    | None => (d, Threw DbError)
    | Some (work, o') =>
        if throws_now o' then (d, Threw DbError) else (work, Returned)
    end.

(** The [try] block of one attempt. *)
Definition try_block (batch : list Distribution) (a : Attempt) (w : World)
  : World * Completion :=
  match a with
  | BlockhashThrows => (w, Threw BlockhashError)
  | SendThrows bh =>
      (emit (Submitted (build_transaction batch bh)) w, Threw SendError)
  | ConfirmThrows bh sig landed =>
      let tx := build_transaction batch bh in
      let w := emit (Submitted tx) w in
      ((if landed then land sig tx w else w), Threw ConfirmationError)
  | ConfirmErr bh sig =>
      (emit (Submitted (build_transaction batch bh)) w, Threw TransactionFailed)
  | Confirmed bh sig o =>
      let tx := build_transaction batch bh in
      let w := land sig tx (emit (Submitted tx) w) in
      let w := emit (Logged LOG "Batch transaction successful") w in
      let (d, c) := record_batch sig batch o (db w) in
      (with_db w d, c)
  end.

(** [while (!success && retryCount < MAX_RETRIES)].  The instructions
    are built before the [try]: an address [new PublicKey] refuses
    throws out of the loop. *)
Fixpoint retry_loop (fuel : nat) (retryCount : nat)
         (batch : list Distribution) (attempts : nat -> Attempt) (w : World)
  : World * Completion :=
  if negb (retryCount <? MAX_RETRIES)%nat then (w, Returned)
  else
    match fuel with
    | O => (w, Threw FuelExhausted)
    | S fuel =>
        if negb (forallb (fun dist => isPublicKey (recipient dist)) batch)
        then (w, Threw InvalidPublicKey)
        else
          match try_block batch (attempts retryCount) w with
          | (w, Returned) => (w, Returned)          (* success = true *)
          | (w, Threw e) =>
              let retryCount := S retryCount in
              if (retryCount <? MAX_RETRIES)%nat then
                let w := emit (Logged WARN "Failed to process batch") w in
                let w := emit (Slept RETRY_DELAY) w in
                retry_loop fuel retryCount batch attempts w
              else
                (emit (Logged ERROR "Failed to process batch after attempts") w,
                 Threw e)
          end
    end.

Definition process_batch (batch : list Distribution)
           (attempts : nat -> Attempt) (w : World) : World * Completion :=
  retry_loop MAX_RETRIES 0 batch attempts w.

(** [validDistributions.slice(i, i + BATCH_SIZE)]. *)
Definition slice {A} (i j : nat) (l : list A) : list A :=
  firstn (j - i) (skipn i l).

(** [for (let i = 0; i < validDistributions.length; i += BATCH_SIZE)];
    [b] counts the batches for the environment. *)
Fixpoint batch_loop (fuel : nat) (i b : nat)
         (validDistributions : list Distribution)
         (env : nat -> nat -> Attempt) (w : World) : World * Completion :=
  if (i <? List.length validDistributions)%nat then
    match fuel with
    | O => (w, Threw FuelExhausted)
    | S fuel =>
        let batch := slice i (i + BATCH_SIZE) validDistributions in
        match process_batch batch (env b) w with
        | (w, Returned) =>
            batch_loop fuel (i + BATCH_SIZE) (S b) validDistributions env w
        | (w, Threw e) => (w, Threw e)
        end
    end
  else (w, Returned).

Definition sendSolanaTransactions (distributions : list Distribution)
           (env : nat -> nat -> Attempt) (w : World) : World * Completion :=
  let validDistributions :=
    filter (fun dist => Qle_bool MIN_AMOUNT_THRESHOLD (amount dist))
           distributions in
  if (List.length validDistributions =? 0)%nat then
    (emit (Logged LOG "No distributions above minimum threshold") w, Returned)
  else
    batch_loop (List.length validDistributions) 0 0 validDistributions env w.


(** ** One pass: [processTransactions] *)

(** What happens around one pass: how every attempt of every batch
    ends, the rows the upstream ingestion commits to [transactions]
    while the payments are being sent (the pass runs under plain BEGIN,
    so its later statements see them), the time of the tracker insert
    and whether the final write of the pass's own client throws. *)
Record PassEnv := {
  attempts : nat -> nat -> Attempt;
  ingested : list Transactions.row;
  now : Z;
  commit_throws : bool
}.

(** [SELECT max_transaction_id FROM transaction_tracker
    ORDER BY timestamp DESC LIMIT 1]; of rows with one timestamp the
    one inserted last. *)
Definition latest_tracker (rows : list Tracker.row) : option Tracker.row :=
  fold_left
    (fun best r =>
       match best with
       | None => Some r
       | Some b =>
           if Tracker.timestamp b <=? Tracker.timestamp r then Some r else Some b
       end)
    rows None.

(** [let maxTransactionId = null; if (rows.length > 0) ...]. *)
Definition read_cursor (d : Database) : option Z :=
  match latest_tracker (transaction_tracker d) with
  | Some r => Tracker.max_transaction_id r
  | None => None
  end.

(** [maxTransactionId || 0]: null and 0 both give 0. *)
Definition or_zero (v : option Z) : Z :=
  match v with Some x => x | None => 0 end.

(** [SELECT MAX(id) as max_id FROM transactions]. *)
Fixpoint max_id (txs : list Transactions.row) : option Z :=
  match txs with
  | [] => None
  | t :: rest =>
      match max_id rest with
      | None => Some (Transactions.id t)
      | Some m => Some (Z.max (Transactions.id t) m)
      end
  end.

Definition distribution_of (r : FeeRow) : Distribution :=
  {| recipient := creator r; amount := total_sol r |}.

(** [INSERT INTO transaction_tracker (max_transaction_id) VALUES ($1)],
    the timestamp being the column's default. *)
Definition insert_tracker (v : option Z) (t : Z) (d : Database) : Database :=
  {| transactions := transactions d;
     coins := coins d;
     transaction_tracker :=
       transaction_tracker d ++
       [ {| Tracker.max_transaction_id := v; Tracker.timestamp := t |} ];
     fee_distributions := fee_distributions d;
     users := users d |}.

(** The upstream process appends to [transactions]. *)
Definition ingest (rows : list Transactions.row) (w : World) : World :=
  with_db w
    {| transactions := transactions (db w) ++ rows;
       coins := coins (db w);
       transaction_tracker := transaction_tracker (db w);
       fee_distributions := fee_distributions (db w);
       users := users (db w) |}.

(** From BEGIN to the result of the aggregation query. *)
Definition aggregate_phase (w : World) : World * list FeeRow :=
  let maxTransactionId := read_cursor (db w) in
  let w :=
    emit (Logged LOG
            (match transaction_tracker (db w) with
             | [] => "No transactions processed yet"
             | _ => "Last processed transaction ID"
             end)) w in
  let rows := accumulated_fees (or_zero maxTransactionId) (db w) in
  let w := emit (Logged LOG "Transaction fees by creator:") w in
  (fold_left (fun w r => emit (Logged LOG (creator r)) w) rows w, rows).

(** After [sendSolanaTransactions]: the second read and the tracker
    insert, then COMMIT.  A throw rolls the insert back. *)
Definition commit_phase (t : Z) (throws : bool) (w : World)
  : World * Completion :=
  let newMaxTransactionId := max_id (transactions (db w)) in
  if throws then (w, Threw DbError)
  else
    (emit (Logged LOG "Updated max transaction ID")
          (with_db w (insert_tracker newMaxTransactionId t (db w))),
     Returned).

Definition processTransactions (env : PassEnv) (w : World)
  : World * Completion :=
  let (w, rows) := aggregate_phase w in
  if (0 <? List.length rows)%nat then
    let distributions := map distribution_of rows in
    let w := emit (Logged LOG "Processing distributions:") w in
    match sendSolanaTransactions distributions (attempts env) w with
    | (w, Returned) =>
        commit_phase (now env) (commit_throws env) (ingest (ingested env) w)
    | (w, Threw e) => (w, Threw e)        (* ROLLBACK of nothing written *)
    end
  else
    (emit (Logged LOG "No new transactions to process") w, Returned).

(** [handleCron]: the pass, its error logged and swallowed. *)
Definition handleCron (env : PassEnv) (w : World) : World :=
  match processTransactions env w with
  | (w, Returned) => w
  | (w, Threw e) => emit (Logged ERROR "Error processing transactions:") w
  end.

(** ** The timer and passes in flight

    [@Cron(EVERY_30_SECONDS)] calls [handleCron] at every tick and does
    not wait for the promise of an earlier call.  A pass is suspended
    at its [await]s; it is followed here at three of them. *)
Inductive Running :=
| AtStart                           (* entered, nothing read yet *)
| AtSend (rows : list FeeRow)       (* aggregated, before sendSolanaTransactions *)
| AtCommit.                         (* sent, before SELECT MAX(id) *)

Record Service := { world : World; running : list Running }.

Inductive Event :=
| Tick                                   (* the timer fires *)
| Ingest (rows : list Transactions.row)  (* upstream commits new events *)
| Resume (p : nat) (env : PassEnv).      (* pass [p] runs to its next await *)

(** What [handleCron] does when called: it starts a pass.  The class
    has no field that records a pass in flight. *)
Definition on_tick (s : Service) : Service :=
  {| world := world s; running := running s ++ [AtStart] |}.

Fixpoint remove_nth {A} (n : nat) (l : list A) : list A :=
  match n, l with
  | _, [] => []
  | O, _ :: l' => l'
  | S n', x :: l' => x :: remove_nth n' l'
  end.

Fixpoint replace_nth {A} (n : nat) (y : A) (l : list A) : list A :=
  match n, l with
  | _, [] => []
  | O, _ :: l' => y :: l'
  | S n', x :: l' => x :: replace_nth n' y l'
  end.

Definition finish (p : nat) (wc : World * Completion) (s : Service) : Service :=
  {| world :=
       match wc with
       | (w, Returned) => w
       | (w, Threw e) => emit (Logged ERROR "Error processing transactions:") w
       end;
     running := remove_nth p (running s) |}.

Definition resume (p : nat) (env : PassEnv) (s : Service) : Service :=
  match nth_error (running s) p with
  | None => s
  | Some AtStart =>
      let (w, rows) := aggregate_phase (world s) in
      if (0 <? List.length rows)%nat then
        {| world := emit (Logged LOG "Processing distributions:") w;
           running := replace_nth p (AtSend rows) (running s) |}
      else
        finish p (emit (Logged LOG "No new transactions to process") w, Returned) s
  | Some (AtSend rows) =>
      match sendSolanaTransactions (map distribution_of rows) (attempts env)
              (world s) with
      | (w, Returned) =>
          {| world := w; running := replace_nth p AtCommit (running s) |}
      | (w, Threw e) => finish p (w, Threw e) s
      end
  | Some AtCommit =>
      finish p (commit_phase (now env) (commit_throws env) (world s)) s
  end.

Definition step (s : Service) (e : Event) : Service :=
  match e with
  | Tick => on_tick s
  | Ingest rows => {| world := ingest rows (world s); running := running s |}
  | Resume p env => resume p env s
  end.

Definition run (s : Service) (es : list Event) : Service :=
  fold_left step es s.

Definition idle (w : World) : Service := {| world := w; running := [] |}.

(** ** Vocabulary of the properties *)


(** The row one distribution leaves in [fee_distributions]. *)
Definition distribution_row (sig : string) (dist : Distribution)
  : FeeDistributions.row :=
  {| FeeDistributions.receiver_address := recipient dist;
     FeeDistributions.transaction_hash := sig;
     FeeDistributions.amount := amount dist |}.

(** All the UPDATEs of a batch on one row of [users]. *)
Definition claim_all (batch : list Distribution) (u : Users.row) : Users.row :=
  fold_left (fun u dist => claim dist u) batch u.

(** The database lets the first [n] queries of a transaction pass. *)
Definition db_ok (n : nat) (o : DbOutcome) : bool :=
  match o with None => true | Some k => (n <=? k)%nat end.

(** An attempt that sets [success]: confirmed without error and the
    local transaction (BEGIN, two queries per distribution, COMMIT)
    committed.  Every other way to end is a failure. *)
Definition attempt_ok (batch : list Distribution) (a : Attempt) : bool :=
  match a with
  | Confirmed _ _ o => db_ok (2 * List.length batch + 2) o
  | _ => false
  end.

(** The first of the attempts [from], ..., [from + n - 1] that
    succeeds. *)
Fixpoint first_ok (batch : list Distribution) (att : nat -> Attempt)
         (from n : nat) : option nat :=
  match n with
  | O => None
  | S n' =>
      if attempt_ok batch (att from) then Some from
      else first_ok batch att (S from) n'
  end.

(** What one attempt sends, and what of it reaches the cluster. *)
Definition submitted_by (batch : list Distribution) (a : Attempt)
  : list SolTransaction :=
  match a with
  | BlockhashThrows => []
  | SendThrows bh | ConfirmThrows bh _ _ | ConfirmErr bh _ | Confirmed bh _ _ =>
      [build_transaction batch bh]
  end.

Definition landed_by (batch : list Distribution) (a : Attempt)
  : list (string * SolTransaction) :=
  match a with
  | ConfirmThrows bh sig true | Confirmed bh sig _ =>
      [(sig, build_transaction batch bh)]
  | _ => []
  end.

(** Projections of a trace. *)
Definition submissions (t : list Effect) : list SolTransaction :=
  flat_map (fun e => match e with Submitted tx => [tx] | _ => [] end) t.

Definition sleeps (t : list Effect) : list Z :=
  flat_map (fun e => match e with Slept ms => [ms] | _ => [] end) t.

Definition failures (t : list Effect) : nat :=
  List.length
    (filter (fun e => match e with
                      | Logged WARN _ | Logged ERROR _ => true
                      | _ => false
                      end) t).

(** The batch number [b] of a list of valid distributions. *)
Definition nth_batch (b : nat) (valid : list Distribution)
  : list Distribution :=
  slice (b * BATCH_SIZE) (b * BATCH_SIZE + BATCH_SIZE) valid.

Definition validDistributions_of (distributions : list Distribution)
  : list Distribution :=
  filter (fun dist => Qle_bool MIN_AMOUNT_THRESHOLD (amount dist))
         distributions.

(** What a pass started on [d] aggregates and hands to the executor. *)
Definition pass_rows (d : Database) : list FeeRow :=
  accumulated_fees (or_zero (read_cursor d)) d.

Definition pass_distributions (d : Database) : list Distribution :=
  validDistributions_of (map distribution_of (pass_rows d)).

Definition paid_to (rs : list string) (rows : list FeeDistributions.row)
  : list FeeDistributions.row :=
  filter (fun r => existsb (String.eqb (FeeDistributions.receiver_address r)) rs)
         rows.

(** A schedule in which the timer only fires while no pass is in
    flight. *)
Fixpoint spaced (s : Service) (es : list Event) : Prop :=
  match es with
  | [] => True
  | e :: es' =>
      (e = Tick -> running s = []) /\ spaced (step s e) es'
  end.

(** The database after the committed local transaction of a batch. *)
Definition apply_batch (sig : string) (batch : list Distribution)
           (d : Database) : Database :=
  {| transactions := transactions d;
     coins := coins d;
     transaction_tracker := transaction_tracker d;
     fee_distributions :=
       fee_distributions d ++ map (distribution_row sig) batch;
     users := map (claim_all batch) (users d) |}.

Definition signature_of (a : Attempt) : string :=
  match a with
  | ConfirmThrows _ sig _ | ConfirmErr _ sig | Confirmed _ sig _ => sig
  | _ => ""
  end.

(** What a failed attempt throws. *)
Definition error_of (a : Attempt) : Error :=
  match a with
  | BlockhashThrows => BlockhashError
  | SendThrows _ => SendError
  | ConfirmThrows _ _ _ => ConfirmationError
  | ConfirmErr _ _ => TransactionFailed
  | Confirmed _ _ _ => DbError
  end.

(** The number of attempts the retry loop makes on a batch: up to the
    first one that succeeds, [MAX_RETRIES] when none does. *)
Definition attempts_made (batch : list Distribution) (att : nat -> Attempt)
  : nat :=
  match first_ok batch att 0 MAX_RETRIES with
  | Some j => S j
  | None => MAX_RETRIES
  end.

Definition valid_keys (batch : list Distribution) : bool :=
  forallb (fun dist => isPublicKey (recipient dist)) batch.

(** The effects of the [try] block of one attempt. *)
Definition attempt_trace (batch : list Distribution) (a : Attempt)
  : list Effect :=
  map Submitted (submitted_by batch a) ++
  match a with
  | Confirmed _ _ _ => [Logged LOG "Batch transaction successful"]
  | _ => []
  end.

(** The attempts the loop still makes from [retryCount] on. *)
Definition remaining_attempts (batch : list Distribution)
           (att : nat -> Attempt) (retryCount : nat) : nat :=
  match first_ok batch att retryCount (MAX_RETRIES - retryCount) with
  | Some j => (S j - retryCount)%nat
  | None => (MAX_RETRIES - retryCount)%nat
  end.

(** The tables the executor never writes. *)
Definition same_ledger (d d' : Database) : Prop :=
  transactions d' = transactions d /\
  coins d' = coins d /\
  transaction_tracker d' = transaction_tracker d.

(** ** Concrete passes *)

Definition event (i : Z) (c : string) (q : Q) : Transactions.row :=
  {| Transactions.id := i; Transactions.coin_id := c;
     Transactions.sol_quantity := q |}.

Definition coin (m c : string) : Coins.row :=
  {| Coins.mint_address := m; Coins.creator_wallet_address := c |}.

Definition user (a : string) (claimed : Q) : Users.row :=
  {| Users.wallet_address := a; Users.fees_claimed_so_far := claimed |}.

Definition fresh (d : Database) : World :=
  {| db := d; chain := []; trace := [] |}.

(** One event of quantity 10 for recipient W, nothing processed yet. *)
Definition db_one : Database :=
  {| transactions := [event 1 "mintA" (10 # 1)];
     coins := [coin "mintA" "W"];
     transaction_tracker := [];
     fee_distributions := [];
     users := [user "W" 0] |}.

(** A large event for W1 and a small one for W2. *)
Definition db_two : Database :=
  {| transactions := [event 1 "mintA" (10 # 1); event 2 "mintB" (1 # 10)];
     coins := [coin "mintA" "W1"; coin "mintB" "W2"];
     transaction_tracker := [];
     fee_distributions := [];
     users := [user "W1" 0; user "W2" 0] |}.

Definition all_keys : string -> bool := fun _ => true.

Definition fee_master : string := "FM".

Definition quiet (att : nat -> nat -> Attempt) : PassEnv :=
  {| attempts := att; ingested := []; now := 100; commit_throws := false |}.

(** Every attempt confirmed and recorded. *)
Definition att_confirmed : nat -> nat -> Attempt :=
  fun _ _ => Confirmed "bh" "sig" None.

(** The first attempt confirmed but its local write fails at the first
    UPDATE; the second attempt confirmed and recorded. *)
Definition att_write_fails : nat -> nat -> Attempt :=
  fun _ j =>
    match j with
    | O => Confirmed "bh1" "sig1" (Some 2%nat)
    | _ => Confirmed "bh2" "sig2" None
    end.


(** The cluster rejects the first attempt. *)
Definition att_rejected : nat -> nat -> Attempt :=
  fun _ j =>
    match j with
    | O => ConfirmErr "bh1" "sig1"
    | _ => Confirmed "bh2" "sig2" None
    end.

(** No attempt ever gets a blockhash. *)
Definition att_down : nat -> nat -> Attempt := fun _ _ => BlockhashThrows.


Definition env_second : PassEnv :=
  {| attempts := fun _ _ => Confirmed "bh'" "sig'" None;
     ingested := [];
     now := 130;
     commit_throws := false |}.

(** Two ticks, the second while the first pass awaits its payments. *)
Definition overlapping : list Event :=
  [Tick; Resume 0 (quiet att_confirmed); Tick; Resume 1 env_second].

Definition overlapping_to_the_end : list Event :=
  overlapping ++
  [Resume 0 (quiet att_confirmed); Resume 1 env_second;
   Resume 0 (quiet att_confirmed); Resume 0 env_second].

(** One tick per pass, each pass run to its end before the next. *)
Definition one_at_a_time : list Event :=
  [Tick; Resume 0 (quiet att_confirmed); Resume 0 (quiet att_confirmed);
   Resume 0 (quiet att_confirmed);
   Tick; Resume 0 env_second].

(** After the first pass over [db_two], a further small event for W2. *)
Definition later_event : list Transactions.row :=
  [event 3 "mintB" (4 # 10)].

Definition two_recipients : list Distribution :=
  [ {| recipient := "W1"; amount := 2 # 100 |};
    {| recipient := "W2"; amount := 5 # 1000 |} ].

(** ** The rows and the signatures of a run of batches *)

(** The signature under which batch [b] is recorded: that of its first
    attempt that succeeds. *)
Definition batch_signature (env : nat -> nat -> Attempt)
           (valid : list Distribution) (b : nat) : string :=
  match first_ok (nth_batch b valid) (env b) 0 MAX_RETRIES with
  | Some j => signature_of (env b j)
  | None => ""
  end.

(** The rows of the batches [from], ..., [from + n - 1]. *)
Definition batches_rows (env : nat -> nat -> Attempt)
           (valid : list Distribution) (from n : nat)
  : list FeeDistributions.row :=
  flat_map (fun b => map (distribution_row (batch_signature env valid b))
                         (nth_batch b valid))
           (seq from n).

(** The number of batches of a list: the iterations of the [for] loop. *)
Definition batch_count (valid : list Distribution) : nat :=
  (List.length valid + (BATCH_SIZE - 1)) / BATCH_SIZE.


Definition recorded (r : FeeDistributions.row) : string * Q :=
  (FeeDistributions.receiver_address r, FeeDistributions.amount r).


(** ** The service before the retry loop (lines 1 to 202 of the file)

    [sendSolanaTransactions] had no threshold filter and no retry, and it
    wrote each row with [this.pool.query], outside any transaction; the
    query of [processTransactions] summed the quantities themselves. *)

(** [for (const dist of batch) await this.pool.query('INSERT ...')]:
    [Some k] makes the INSERT number [k] throw; the rows before it
    stay. *)
Fixpoint insert_rows_v1 (sig : string) (batch : list Distribution)
         (o : DbOutcome) (d : Database) : Database * Completion :=
  match batch with
  | [] => (d, Returned)
  | dist :: rest =>
      if throws_now o then (d, Threw DbError)
      else insert_rows_v1 sig rest (after_query o) (insert_distribution sig dist d)
  end.

Definition try_block_v1 (batch : list Distribution) (a : Attempt) (w : World)
  : World * Completion :=
  match a with
  | BlockhashThrows => (w, Threw BlockhashError)
  | SendThrows bh =>
      (emit (Submitted (build_transaction batch bh)) w, Threw SendError)
  | ConfirmThrows bh sig landed =>
      let tx := build_transaction batch bh in
      let w := emit (Submitted tx) w in
      ((if landed then land sig tx w else w), Threw ConfirmationError)
  | ConfirmErr bh sig =>
      (emit (Submitted (build_transaction batch bh)) w, Threw TransactionFailed)
  | Confirmed bh sig o =>
      let tx := build_transaction batch bh in
      let w := land sig tx (emit (Submitted tx) w) in
      let w := emit (Logged LOG "Batch transaction successful") w in
      let (d, c) := insert_rows_v1 sig batch o (db w) in
      (with_db w d, c)
  end.

(** One iteration: the instructions, then [try] and the [catch] that
    logs and rethrows. *)
Definition process_batch_v1 (batch : list Distribution) (a : Attempt)
           (w : World) : World * Completion :=
  if negb (forallb (fun dist => isPublicKey (recipient dist)) batch)
  then (w, Threw InvalidPublicKey)
  else
    match try_block_v1 batch a w with
    | (w, Returned) => (w, Returned)
    | (w, Threw e) => (emit (Logged ERROR "Failed to process batch") w, Threw e)
    end.

Fixpoint batch_loop_v1 (fuel : nat) (i b : nat)
         (distributions : list Distribution)
         (env : nat -> Attempt) (w : World) : World * Completion :=
  if (i <? List.length distributions)%nat then
    match fuel with
    | O => (w, Threw FuelExhausted)
    | S fuel =>
        let batch := slice i (i + BATCH_SIZE) distributions in
        match process_batch_v1 batch (env b) w with
        | (w, Returned) =>
            batch_loop_v1 fuel (i + BATCH_SIZE) (S b) distributions env w
        | (w, Threw e) => (w, Threw e)
        end
    end
  else (w, Returned).

Definition sendSolanaTransactions_v1 (distributions : list Distribution)
           (env : nat -> Attempt) (w : World) : World * Completion :=
  batch_loop_v1 (List.length distributions) 0 0 distributions env w.

(** [SELECT c.creator_wallet_address, SUM(t.sol_quantity) as total_sol
    FROM transactions t JOIN coins c ON t.coin_id = c.mint_address
    WHERE t.id > $1 GROUP BY c.creator_wallet_address]. *)
Definition summed_quantities (since : Z) (d : Database) : list FeeRow :=
  let rows := joined since d in
  map (fun k =>
         {| creator := k;
            total_sol :=
              Qsum (map snd (filter (fun r => String.eqb (fst r) k) rows)) |})
      (group_keys rows).

Definition aggregate_phase_v1 (w : World) : World * list FeeRow :=
  let maxTransactionId := read_cursor (db w) in
  let w :=
    emit (Logged LOG
            (match transaction_tracker (db w) with
             | [] => "No transactions processed yet"
             | _ => "Last processed transaction ID"
             end)) w in
  let rows := summed_quantities (or_zero maxTransactionId) (db w) in
  let w := emit (Logged LOG "Transaction fees by creator:") w in
  (fold_left (fun w r => emit (Logged LOG (creator r)) w) rows w, rows).

(** Only the first attempt of a batch of the environment is used. *)
Definition processTransactions_v1 (env : PassEnv) (w : World)
  : World * Completion :=
  let (w, rows) := aggregate_phase_v1 w in
  if (0 <? List.length rows)%nat then
    let distributions := map distribution_of rows in
    let w := emit (Logged LOG "Processing distributions:") w in
    match sendSolanaTransactions_v1 distributions
            (fun b => attempts env b 0%nat) w with
    | (w, Returned) =>
        commit_phase (now env) (commit_throws env) (ingest (ingested env) w)
    | (w, Threw e) => (w, Threw e)
    end
  else
    (emit (Logged LOG "No new transactions to process") w, Returned).

(** ** The service before the payments (the first version of the file)

    [processTransactions] only moved the cursor. *)
Definition processTransactions_v0 (t : Z) (throws : bool) (w : World)
  : World * Completion :=
  let (w, rows) := aggregate_phase_v1 w in
  if (0 <? List.length rows)%nat then commit_phase t throws w
  else (emit (Logged LOG "No new transactions to process") w, Returned).

(** ** Further concrete passes *)

(** Everything is paid and recorded, then the tracker insert throws. *)
Definition env_commit_throws : PassEnv :=
  {| attempts := att_confirmed;
     ingested := [];
     now := 100;
     commit_throws := true |}.

(** Twelve recipients: two batches. *)
Definition twelve : list Distribution :=
  map (fun k => {| recipient := String (Ascii.ascii_of_nat (65 + k)) "";
                   amount := 2 # 100 |})
      (seq 0 12).

(** The second INSERT of the batch throws. *)
Definition att_second_insert_throws : nat -> nat -> Attempt :=
  fun _ _ => Confirmed "bh" "sig" (Some 1%nat).

Definition tracker_row (v : option Z) (t : Z) : Tracker.row :=
  {| Tracker.max_transaction_id := v; Tracker.timestamp := t |}.

(** A tracker with a history. *)
Definition db_tracked : Database :=
  {| transactions := [event 1 "mintA" (10 # 1); event 2 "mintA" (10 # 1)];
     coins := [coin "mintA" "W"];
     transaction_tracker := [tracker_row (Some 1) 70; tracker_row None 40];
     fee_distributions := [];
     users := [user "W" 0] |}.

(** One small event: W stays below the threshold. *)
Definition db_small : Database :=
  {| transactions := [event 1 "mintA" (1 # 10)];
     coins := [coin "mintA" "W"];
     transaction_tracker := [];
     fee_distributions := [];
     users := [user "W" 0] |}.

(** The event of [db_one] already behind the cursor. *)
Definition db_done : Database :=
  {| transactions := [event 1 "mintA" (10 # 1)];
     coins := [coin "mintA" "W"];
     transaction_tracker := [tracker_row (Some 1) 100];
     fee_distributions := [];
     users := [user "W" 0] |}.

(** ** The aggregation query *)

Lemma Qsum_app (l1 l2 : list Q) : (Qsum (l1 ++ l2) == Qsum l1 + Qsum l2)%Q.
Proof.
  induction l1 as [|q l1 IH]; simpl.
  - ring.
  - rewrite IH. ring.
Qed.



Lemma in_join_row (cs : list Coins.row) (t : Transactions.row) r q :
  In (r, q) (join_row cs t) <->
  exists c, In c cs /\ Transactions.coin_id t = Coins.mint_address c /\
            Coins.creator_wallet_address c = r /\
            q = Transactions.sol_quantity t.
Proof.
  unfold join_row. rewrite in_map_iff. split.
  - intros [c [E H]]. apply filter_In in H as [Hc Hm].
    apply String.eqb_eq in Hm. inversion E; subst. eauto.
  - intros [c [Hc [Hm [Hr Hq]]]]. exists c. subst. split; [reflexivity|].
    apply filter_In. split; [assumption|]. now apply String.eqb_eq.
Qed.

Lemma in_joined (since : Z) (d : Database) r q :
  In (r, q) (joined since d) <->
  exists t c, In t (transactions d) /\ In c (coins d) /\
              since < Transactions.id t /\
              Transactions.coin_id t = Coins.mint_address c /\
              Coins.creator_wallet_address c = r /\
              q = Transactions.sol_quantity t.
Proof.
  unfold joined. rewrite in_flat_map. split.
  - intros [t [Ht H]].
    destruct (Transactions.id t >? since) eqn:E; [|contradiction].
    apply in_join_row in H as [c [Hc [Hm [Hr Hq]]]].
    exists t, c. repeat split; try assumption. lia.
  - intros [t [c [Ht [Hc [Hlt [Hm [Hr Hq]]]]]]].
    exists t. split; [assumption|].
    replace (Transactions.id t >? since) with true by lia.
    apply in_join_row. eauto.
Qed.

Lemma accumulated_fees_In (since : Z) (d : Database) (row : FeeRow) :
  In row (accumulated_fees since d) <->
  In (creator row) (map fst (joined since d)) /\
  total_sol row = group_sum (joined since d) (creator row) /\
  (MIN_AMOUNT_THRESHOLD <= total_sol row)%Q.
Proof.
  unfold accumulated_fees, group_keys.
  rewrite filter_In, in_map_iff, Qle_bool_iff. split.
  - intros [[k [E Hk]] Hle]. subst row. simpl in *.
    apply nodup_In in Hk. auto.
  - intros [Hk [Hs Hle]]. split; [|assumption].
    exists (creator row). split.
    + destruct row; simpl in *. now subst.
    + now apply nodup_In.
Qed.

Lemma filter_keeps_distinct_keys {Row Key} (key : Row -> Key)
      (keep : Row -> bool) (rows : list Row) :
  NoDup (map key rows) -> NoDup (map key (filter keep rows)).
Proof.
  induction rows as [|row rows IH]; cbn [filter map]; intros Hd; [constructor|].
  apply NoDup_cons_iff in Hd as [Hfresh Hrest].
  destruct (keep row); cbn [map]; [|now apply IH].
  apply NoDup_cons; [|now apply IH].
  intros Hin. apply Hfresh.
  apply in_map_iff in Hin as [other [Ekey Hother]].
  apply filter_In in Hother as [Hother _].
  apply in_map_iff. now exists other.
Qed.

Lemma accumulated_fees_NoDup (since : Z) (d : Database) :
  NoDup (map creator (accumulated_fees since d)).
Proof.
  unfold accumulated_fees.
  apply filter_keeps_distinct_keys.
  rewrite map_map. simpl. rewrite map_id.
  apply NoDup_nodup.
Qed.

Lemma validDistributions_of_rows (since : Z) (d : Database) :
  validDistributions_of (map distribution_of (accumulated_fees since d)) =
  map distribution_of (accumulated_fees since d).
Proof.
  unfold validDistributions_of.
  apply forallb_filter_id.
  apply forallb_forall. intros dist Hin.
  apply in_map_iff in Hin as [row [E Hrow]]. subst dist.
  apply accumulated_fees_In in Hrow as [_ [_ Hle]].
  now apply Qle_bool_iff.
Qed.


(** ** The local transaction of a batch *)


Lemma write_batch_spec sig batch :
  forall o d,
    write_batch sig batch o d =
    if db_ok (2 * List.length batch) o
    then Some (apply_batch sig batch d,
               match o with
               | None => None
               | Some k => Some (k - 2 * List.length batch)%nat
               end)
    else None.
Proof.
  induction batch as [|dist rest IH]; intros o d.
  - assert (E : apply_batch sig [] d = d).
    { destruct d. unfold apply_batch, claim_all. cbn.
      rewrite app_nil_r, map_id. reflexivity. }
    cbn [write_batch List.length Nat.mul]. rewrite E.
    destruct o as [k|]; cbn [db_ok Nat.leb]; [|reflexivity].
    rewrite Nat.sub_0_r. reflexivity.
  - cbn [write_batch].
    destruct o as [[|[|k]]|]; cbn [throws_now after_query].
    + reflexivity.
    + replace (db_ok _ (Some 1%nat)) with false; [reflexivity|].
      symmetry. apply Nat.leb_gt. cbn [List.length]. lia.
    + rewrite IH.
      replace (db_ok (2 * List.length (dist :: rest)) (Some (S (S k))))
        with (db_ok (2 * List.length rest) (Some k))
        by (cbn [db_ok List.length];
            destruct (2 * List.length rest <=? k)%nat eqn:E;
            symmetry; [apply Nat.leb_le; apply Nat.leb_le in E
                      | apply Nat.leb_gt; apply Nat.leb_gt in E]; lia).
      destruct (db_ok (2 * List.length rest) (Some k)); [|reflexivity].
      f_equal. f_equal.
      * unfold apply_batch; simpl. f_equal.
        -- rewrite <- app_assoc. reflexivity.
        -- rewrite map_map. reflexivity.
      * f_equal. cbn [List.length]. lia.
    + rewrite IH. cbn [db_ok]. f_equal. f_equal.
      unfold apply_batch; simpl. f_equal.
      * rewrite <- app_assoc. reflexivity.
      * rewrite map_map. reflexivity.
Qed.

(** The local transaction is atomic: it commits every row of the batch
    or, after ROLLBACK, leaves the database as it was. *)
Lemma record_batch_spec sig batch o d :
  record_batch sig batch o d =
  if db_ok (2 * List.length batch + 2) o
  then (apply_batch sig batch d, Returned)
  else (d, Threw DbError).
Proof.
  unfold record_batch.
  destruct o as [[|k]|]; cbn [throws_now after_query].
  - replace (db_ok _ (Some 0%nat)) with false; [reflexivity|].
    symmetry. apply Nat.leb_gt. lia.
  - rewrite write_batch_spec. cbn [db_ok].
    destruct (2 * List.length batch <=? k)%nat eqn:E.
    + apply Nat.leb_le in E.
      destruct (k - 2 * List.length batch)%nat eqn:E2; cbn [throws_now].
      * replace (_ <=? S k)%nat with false; [reflexivity|].
        symmetry. apply Nat.leb_gt. lia.
      * replace (_ <=? S k)%nat with true; [reflexivity|].
        symmetry. apply Nat.leb_le. lia.
    + apply Nat.leb_gt in E.
      replace (_ <=? S k)%nat with false; [reflexivity|].
      symmetry. apply Nat.leb_gt. lia.
  - rewrite write_batch_spec. reflexivity.
Qed.

(** ** One attempt and the retry loop *)

Lemma try_block_spec batch a w :
  try_block batch a w =
  ({| db := if attempt_ok batch a
            then apply_batch (signature_of a) batch (db w)
            else db w;
      chain := chain w ++ landed_by batch a;
      trace := trace w ++ attempt_trace batch a |},
   if attempt_ok batch a then Returned else Threw (error_of a)).
Proof.
  destruct w as [d ch tr].
  destruct a as [|bh|bh sig [|]|bh sig|bh sig o];
    cbn [try_block attempt_ok landed_by attempt_trace submitted_by
         signature_of error_of emit land with_db db chain trace map];
    rewrite ?app_nil_r; try reflexivity.
  - rewrite record_batch_spec.
    destruct (db_ok (2 * List.length batch + 2) o);
      unfold with_db, emit, land, attempt_trace;
      cbn [db chain trace submitted_by map app];
      rewrite <- ?app_assoc; reflexivity.
Qed.

Lemma submissions_app t1 t2 :
  submissions (t1 ++ t2) = submissions t1 ++ submissions t2.
Proof. apply flat_map_app. Qed.

Lemma sleeps_app t1 t2 : sleeps (t1 ++ t2) = sleeps t1 ++ sleeps t2.
Proof. apply flat_map_app. Qed.

Lemma failures_app t1 t2 : failures (t1 ++ t2) = (failures t1 + failures t2)%nat.
Proof. unfold failures. rewrite filter_app, length_app. reflexivity. Qed.

Lemma attempt_trace_facts batch a :
  submissions (attempt_trace batch a) = submitted_by batch a /\
  sleeps (attempt_trace batch a) = [] /\
  failures (attempt_trace batch a) = 0%nat.
Proof. destruct a; repeat split; reflexivity. Qed.

Lemma first_ok_bounds batch att :
  forall n from j,
    first_ok batch att from n = Some j ->
    (from <= j < from + n)%nat /\ attempt_ok batch (att j) = true /\
    (forall i, (from <= i < j)%nat -> attempt_ok batch (att i) = false).
Proof.
  induction n as [|n IH]; intros from j H; cbn [first_ok] in H; [discriminate|].
  destruct (attempt_ok batch (att from)) eqn:E.
  - inversion H; subst. split; [lia|]. split; [assumption|]. intros; lia.
  - apply IH in H as [Hb [Hok Hbefore]].
    split; [lia|]. split; [assumption|].
    intros i Hi. destruct (Nat.eq_dec i from); [subst; assumption|].
    apply Hbefore. lia.
Qed.

Lemma first_ok_none batch att :
  forall n from,
    first_ok batch att from n = None ->
    forall i, (from <= i < from + n)%nat -> attempt_ok batch (att i) = false.
Proof.
  induction n as [|n IH]; intros from H i Hi; [lia|].
  cbn [first_ok] in H.
  destruct (attempt_ok batch (att from)) eqn:E; [discriminate|].
  destruct (Nat.eq_dec i from); [subst; assumption|].
  apply (IH (S from)); [assumption | lia].
Qed.

Lemma retry_loop_spec batch att (Hk : valid_keys batch = true) :
  forall fuel retryCount w w' c,
    (MAX_RETRIES <= retryCount + fuel)%nat ->
    (retryCount < MAX_RETRIES)%nat ->
    retry_loop fuel retryCount batch att w = (w', c) ->
    let n := remaining_attempts batch att retryCount in
    chain w' =
    chain w ++ flat_map (fun j => landed_by batch (att j)) (seq retryCount n) /\
    (exists t,
        trace w' = trace w ++ t /\
        submissions t =
        flat_map (fun j => submitted_by batch (att j)) (seq retryCount n) /\
        sleeps t = repeat RETRY_DELAY (n - 1) /\
        failures t =
        match first_ok batch att retryCount (MAX_RETRIES - retryCount) with
        | Some _ => (n - 1)%nat
        | None => n
        end) /\
    match first_ok batch att retryCount (MAX_RETRIES - retryCount) with
    | Some j =>
        c = Returned /\
        db w' = apply_batch (signature_of (att j)) batch (db w)
    | None =>
        c = Threw (error_of (att (MAX_RETRIES - 1)%nat)) /\ db w' = db w
    end.
Proof.
  induction fuel as [|fuel IH]; intros rc w w' c Hfuel Hrc H; [lia|].
  cbn [retry_loop] in H.
  replace (rc <? MAX_RETRIES)%nat with true in H
    by (symmetry; apply Nat.ltb_lt; assumption).
  unfold valid_keys in Hk. rewrite Hk in H. cbn [negb] in H.
  rewrite try_block_spec in H.
  unfold remaining_attempts.
  destruct (MAX_RETRIES - rc)%nat as [|m] eqn:Em; [lia|].
  cbn [first_ok].
  destruct (attempt_ok batch (att rc)) eqn:Eok.
  - inversion H; subst; clear H. cbn [db chain trace].
    replace (S rc - rc)%nat with 1%nat by lia.
    cbn [seq flat_map]. rewrite app_nil_r.
    split; [reflexivity|]. split; [|auto].
    exists (attempt_trace batch (att rc)).
    destruct (attempt_trace_facts batch (att rc)) as [Hs [Hz Hf]].
    rewrite app_nil_r. auto.
  - destruct (S rc <? MAX_RETRIES)%nat eqn:Enext.
    + apply Nat.ltb_lt in Enext.
      apply IH in H; [|lia|assumption].
      unfold remaining_attempts in H.
      replace (MAX_RETRIES - S rc)%nat with m in H by lia.
      cbn [emit db chain trace] in H.
      destruct H as [Hch [[t [Ht [Hsub [Hsl Hfl]]]] Hres]].
      destruct (attempt_trace_facts batch (att rc)) as [Hs [Hz Hf]].
      assert (Hn : match first_ok batch att (S rc) m with
                   | Some j => (S j - rc)%nat
                   | None => S m
                   end =
                   S match first_ok batch att (S rc) m with
                     | Some j => (S j - S rc)%nat
                     | None => m
                     end).
      { destruct (first_ok batch att (S rc) m) as [j|] eqn:Ef; [|reflexivity].
        apply first_ok_bounds in Ef. lia. }
      rewrite Hn. cbn [seq flat_map].
      split; [rewrite Hch, <- app_assoc; reflexivity|].
      split.
      * exists (attempt_trace batch (att rc) ++
                [Logged WARN "Failed to process batch"; Slept RETRY_DELAY] ++ t).
        split; [rewrite Ht; rewrite <- !app_assoc; reflexivity|].
        rewrite !submissions_app, !sleeps_app, !failures_app.
        rewrite Hs, Hz, Hf, Hsub, Hsl, Hfl.
        cbn. rewrite Nat.sub_0_r.
        split; [reflexivity|]. split.
        -- destruct (first_ok batch att (S rc) m) as [j|] eqn:Ef.
           ++ apply first_ok_bounds in Ef.
              destruct (j - rc)%nat eqn:Ej; [lia|].
              cbn. rewrite Nat.sub_0_r. reflexivity.
           ++ destruct m; [lia|]. cbn. rewrite Nat.sub_0_r. reflexivity.
        -- destruct (first_ok batch att (S rc) m) as [j|] eqn:Ef.
           ++ apply first_ok_bounds in Ef. lia.
           ++ reflexivity.
      * destruct (first_ok batch att (S rc) m) as [j|]; assumption.
    + apply Nat.ltb_ge in Enext.
      inversion H; subst; clear H. cbn [emit db chain trace].
      assert (m = 0%nat) by lia. subst m. cbn [first_ok seq flat_map].
      rewrite app_nil_r.
      split; [reflexivity|]. split.
      * destruct (attempt_trace_facts batch (att rc)) as [Hs [Hz Hf]].
        exists (attempt_trace batch (att rc) ++
                [Logged ERROR "Failed to process batch after attempts"]).
        split; [rewrite <- app_assoc; reflexivity|].
        rewrite !submissions_app, !sleeps_app, !failures_app, Hs, Hz, Hf.
        cbn. rewrite app_nil_r. auto.
      * replace (MAX_RETRIES - 1)%nat with rc by lia. auto.
Qed.

(** ** A batch *)

Lemma process_batch_invalid batch att w :
  valid_keys batch = false ->
  process_batch batch att w = (w, Threw InvalidPublicKey).
Proof.
  intros H. unfold process_batch, valid_keys in *.
  cbn. rewrite H. reflexivity.
Qed.

Lemma process_batch_spec batch att w w' c :
  valid_keys batch = true ->
  process_batch batch att w = (w', c) ->
  let n := attempts_made batch att in
  chain w' = chain w ++ flat_map (fun j => landed_by batch (att j)) (seq 0 n) /\
  (exists t,
      trace w' = trace w ++ t /\
      submissions t = flat_map (fun j => submitted_by batch (att j)) (seq 0 n) /\
      sleeps t = repeat RETRY_DELAY (n - 1) /\
      failures t =
      match first_ok batch att 0 MAX_RETRIES with
      | Some _ => (n - 1)%nat
      | None => n
      end) /\
  match first_ok batch att 0 MAX_RETRIES with
  | Some j =>
      c = Returned /\ db w' = apply_batch (signature_of (att j)) batch (db w)
  | None => c = Threw (error_of (att (MAX_RETRIES - 1)%nat)) /\ db w' = db w
  end.
Proof.
  intros Hk H. unfold process_batch in H.
  apply (retry_loop_spec batch att Hk) in H;
    [|unfold MAX_RETRIES; lia|unfold MAX_RETRIES; lia].
  unfold remaining_attempts in H.
  rewrite Nat.sub_0_r in H.
  unfold attempts_made.
  destruct (first_ok batch att 0 MAX_RETRIES) as [j|];
    [rewrite Nat.sub_0_r in H|]; exact H.
Qed.

(** Whatever the keys and the attempts: a batch that returns has
    committed its rows once, a batch that throws has written nothing. *)
Lemma process_batch_db batch att w w' c :
  process_batch batch att w = (w', c) ->
  match c with
  | Returned =>
      valid_keys batch = true /\
      exists j, first_ok batch att 0 MAX_RETRIES = Some j /\
                db w' = apply_batch (signature_of (att j)) batch (db w)
  | Threw e =>
      db w' = db w /\ e <> FuelExhausted /\
      (valid_keys batch = true -> first_ok batch att 0 MAX_RETRIES = None)
  end.
Proof.
  intros H.
  destruct (valid_keys batch) eqn:Hk.
  - apply process_batch_spec in H; [|assumption].
    destruct H as [_ [_ H]].
    destruct (first_ok batch att 0 MAX_RETRIES) as [j|];
      destruct H as [Hc Hd]; subst c; eauto.
    split; [assumption|]. split; [|reflexivity].
    destruct (att (MAX_RETRIES - 1)%nat); discriminate.
  - rewrite process_batch_invalid in H by assumption.
    inversion H; subst. repeat split; discriminate.
Qed.

Lemma apply_batch_ledger sig batch d : same_ledger d (apply_batch sig batch d).
Proof. repeat split. Qed.

(** ** Slices *)

Lemma In_slice {A} (i j : nat) (l : list A) (x : A) :
  In x (slice i j l) <->
  exists k, (i <= k < j)%nat /\ nth_error l k = Some x.
Proof.
  unfold slice. split.
  - intros H. apply In_nth_error in H as [n Hn].
    rewrite nth_error_firstn in Hn.
    destruct (n <? j - i)%nat eqn:E; [|discriminate].
    apply Nat.ltb_lt in E. rewrite nth_error_skipn in Hn.
    exists (i + n)%nat. split; [lia | assumption].
  - intros [k [Hk Hx]].
    apply (nth_error_In _ (k - i)).
    rewrite nth_error_firstn.
    replace (k - i <? j - i)%nat with true
      by (symmetry; apply Nat.ltb_lt; lia).
    rewrite nth_error_skipn.
    replace (i + (k - i))%nat with k by lia. assumption.
Qed.

Lemma slice_NoDup {A B} (f : A -> B) (i j : nat) (l : list A) :
  NoDup (map f l) -> NoDup (map f (slice i j l)).
Proof.
  intros H. unfold slice.
  rewrite <- (firstn_skipn i l), map_app in H.
  apply NoDup_app_remove_l in H.
  rewrite <- (firstn_skipn (j - i) (skipn i l)), map_app in H.
  now apply NoDup_app_remove_r in H.
Qed.

(** Two positions of a list without repeated recipients that hold the
    same recipient are one position. *)
Lemma recipient_position (valid : list Distribution) k k' x y :
  NoDup (map recipient valid) ->
  nth_error valid k = Some x ->
  nth_error valid k' = Some y ->
  recipient x = recipient y ->
  k = k'.
Proof.
  intros Hnd Hx Hy E.
  apply (proj1 (NoDup_nth_error (map recipient valid)) Hnd).
  - rewrite length_map. apply nth_error_Some. congruence.
  - rewrite !nth_error_map, Hx, Hy. simpl. congruence.
Qed.

(** ** The loop over the batches *)

Lemma same_ledger_refl d : same_ledger d d.
Proof. repeat split. Qed.

Lemma same_ledger_trans d1 d2 d3 :
  same_ledger d1 d2 -> same_ledger d2 d3 -> same_ledger d1 d3.
Proof. unfold same_ledger. intuition congruence. Qed.

(** The loop runs the batches in order and stops at the end of the
    list or at the first batch that throws; it never runs out of fuel.
    The rows it adds are those of the batches before the stop. *)
Lemma batch_loop_stops (valid : list Distribution) (env : nat -> nat -> Attempt) :
  forall fuel i b w w' c,
    i = (b * BATCH_SIZE)%nat ->
    (List.length valid <= i + fuel)%nat ->
    batch_loop fuel i b valid env w = (w', c) ->
    same_ledger (db w) (db w') /\
    exists stop added,
      (b <= stop)%nat /\
      fee_distributions (db w') = fee_distributions (db w) ++ added /\
      (forall row, In row added ->
         exists k dist,
           (i <= k < stop * BATCH_SIZE)%nat /\
           nth_error valid k = Some dist /\
           FeeDistributions.receiver_address row = recipient dist) /\
      (forall b', (b <= b' < stop)%nat ->
         valid_keys (nth_batch b' valid) = true /\
         first_ok (nth_batch b' valid) (env b') 0 MAX_RETRIES <> None) /\
      match c with
      | Returned => (List.length valid <= stop * BATCH_SIZE)%nat
      | Threw e =>
          (stop * BATCH_SIZE < List.length valid)%nat /\
          e <> FuelExhausted /\
          (valid_keys (nth_batch stop valid) = true ->
           first_ok (nth_batch stop valid) (env stop) 0 MAX_RETRIES = None)
      end.
Proof.
  induction fuel as [|fuel IH]; intros i b w w' c Hi Hfuel H.
  - cbn [batch_loop] in H.
    replace (i <? List.length valid)%nat with false in H
      by (symmetry; apply Nat.ltb_ge; lia).
    inversion H; subst. split; [apply same_ledger_refl|].
    exists b, []. rewrite app_nil_r.
    repeat split; try lia; try contradiction.
  - cbn [batch_loop] in H.
    destruct (i <? List.length valid)%nat eqn:Elt.
    + apply Nat.ltb_lt in Elt.
      replace (slice i (i + BATCH_SIZE) valid) with (nth_batch b valid) in H
        by (unfold nth_batch; subst i; reflexivity).
      destruct (process_batch (nth_batch b valid) (env b) w) as [w1 c1] eqn:Ep.
      apply process_batch_db in Ep.
      destruct c1 as [|e].
      * destruct Ep as [Hk [j [Hj Hd]]].
        apply IH in H; [|subst i; unfold BATCH_SIZE; lia|unfold BATCH_SIZE; lia].
        destruct H as [Hl [stop [added [Hstop [Hfd [Hrows [Hbs Hc]]]]]]].
        split.
        { eapply same_ledger_trans; [|exact Hl].
          rewrite Hd. apply apply_batch_ledger. }
        exists stop,
          (map (distribution_row (signature_of (env b j))) (nth_batch b valid)
           ++ added).
        split; [lia|]. split.
        { rewrite Hfd, Hd. cbn [apply_batch fee_distributions].
          rewrite app_assoc. reflexivity. }
        split.
        { intros row Hrow. apply in_app_or in Hrow as [Hrow|Hrow].
          - apply in_map_iff in Hrow as [dist [Er Hdist]].
            unfold nth_batch in Hdist. apply In_slice in Hdist as [k [Hk' Hn]].
            exists k, dist. subst row. cbn.
            split; [|auto]. subst i. unfold BATCH_SIZE in *. lia.
          - apply Hrows in Hrow as [k [dist [Hk' Hn]]].
            exists k, dist. split; [lia | assumption]. }
        split; [|assumption].
        intros b' Hb'. destruct (Nat.eq_dec b' b) as [->|Hne].
        -- split; [assumption | congruence].
        -- apply Hbs. lia.
      * inversion H; subst w' c; clear H.
        destruct Ep as [Hd [He Hnone]].
        split; [rewrite Hd; apply same_ledger_refl|].
        exists b, []. rewrite app_nil_r, Hd.
        split; [lia|]. split; [reflexivity|].
        split; [intros ? []|]. split; [intros; lia|].
        split; [lia|]. split; assumption.
    + apply Nat.ltb_ge in Elt.
      inversion H; subst. split; [apply same_ledger_refl|].
      exists b, []. rewrite app_nil_r.
      repeat split; try lia; try contradiction.
Qed.

Lemma sendSolanaTransactions_stops distributions env w w' c :
  sendSolanaTransactions distributions env w = (w', c) ->
  let valid := validDistributions_of distributions in
  same_ledger (db w) (db w') /\
  exists stop added,
    fee_distributions (db w') = fee_distributions (db w) ++ added /\
    (forall row, In row added ->
       exists k dist,
         (k < stop * BATCH_SIZE)%nat /\
         nth_error valid k = Some dist /\
         FeeDistributions.receiver_address row = recipient dist) /\
    (forall b', (b' < stop)%nat ->
       valid_keys (nth_batch b' valid) = true /\
       first_ok (nth_batch b' valid) (env b') 0 MAX_RETRIES <> None) /\
    match c with
    | Returned => (List.length valid <= stop * BATCH_SIZE)%nat
    | Threw e =>
        (stop * BATCH_SIZE < List.length valid)%nat /\
        e <> FuelExhausted /\
        (valid_keys (nth_batch stop valid) = true ->
         first_ok (nth_batch stop valid) (env stop) 0 MAX_RETRIES = None)
    end.
Proof.
  intros H valid. unfold sendSolanaTransactions in H. cbv zeta in H.
  fold (validDistributions_of distributions) in H. fold valid in H.
  destruct (List.length valid =? 0)%nat eqn:E.
  - apply Nat.eqb_eq in E. inversion H; subst. cbn [emit db].
    split; [apply same_ledger_refl|].
    exists 0%nat, []. rewrite app_nil_r.
    repeat split; try lia; try contradiction.
  - apply batch_loop_stops in H; [|reflexivity|lia].
    destruct H as [Hl [stop [added [_ [Hfd [Hrows [Hbs Hc]]]]]]].
    split; [assumption|].
    exists stop, added. split; [assumption|]. split.
    + intros row Hrow. apply Hrows in Hrow as [k [dist [Hk Hn]]].
      exists k, dist. split; [lia | assumption].
    + split; [|assumption]. intros b' Hb'. apply Hbs. lia.
Qed.

(** [sendSolanaTransactions] always returns or throws an error of an
    attempt: the fuel of the two loops is never used up. *)
Lemma sendSolanaTransactions_total distributions env w :
  snd (sendSolanaTransactions distributions env w) <> Threw FuelExhausted.
Proof.
  destruct (sendSolanaTransactions distributions env w) as [w' c] eqn:E.
  apply sendSolanaTransactions_stops in E.
  destruct E as [_ [stop [added [_ [_ [_ Hc]]]]]].
  destruct c as [|e]; cbn; [discriminate|].
  destruct Hc as [_ [He _]]. congruence.
Qed.

(** ** What a committed batch writes *)



Lemma filter_none {A} (p : A -> bool) (l : list A) :
  (forall x, In x l -> p x = false) -> filter p l = [].
Proof.
  induction l as [|x l IH]; intros H; [reflexivity|].
  cbn [filter]. rewrite (H x (or_introl eq_refl)).
  apply IH. intros y Hy. apply H. now right.
Qed.


Lemma attempt_ok_confirmed batch a :
  attempt_ok batch a = true ->
  exists bh sig o,
    a = Confirmed bh sig o /\ db_ok (2 * List.length batch + 2) o = true.
Proof. destruct a; cbn; intros H; try discriminate. eauto. Qed.




(** ** What the retry loop does with a failure *)

Lemma attempts_made_le batch att : (attempts_made batch att <= MAX_RETRIES)%nat.
Proof.
  unfold attempts_made.
  destruct (first_ok batch att 0 MAX_RETRIES) as [j|] eqn:E; [|lia].
  apply first_ok_bounds in E. lia.
Qed.

Lemma attempts_made_after_failure batch att j :
  (forall i, (i <= j)%nat -> attempt_ok batch (att i) = false) ->
  (S j < MAX_RETRIES)%nat ->
  (j + 2 <= attempts_made batch att)%nat.
Proof.
  intros Hfail Hj. unfold attempts_made.
  destruct (first_ok batch att 0 MAX_RETRIES) as [j'|] eqn:E; [|lia].
  apply first_ok_bounds in E as [_ [Hok _]].
  destruct (Nat.le_gt_cases j' j) as [Hle|Hgt]; [|lia].
  rewrite (Hfail j' Hle) in Hok. discriminate.
Qed.

Lemma flat_map_seq_split {A} (f : nat -> list A) (j n : nat) :
  (j < n)%nat ->
  flat_map f (seq 0 n) =
  flat_map f (seq 0 j) ++ f j ++ flat_map f (seq (S j) (n - S j)).
Proof.
  intros H.
  replace n with (j + S (n - S j))%nat at 1 by lia.
  rewrite seq_app, flat_map_app. reflexivity.
Qed.

(** C5 (as amended): every failed attempt is retried, whatever made it
    fail, a transfer the cluster rejected included; a batch gets at
    most 3 attempts, with one delay of 2000 ms between two attempts,
    and throws the error of the third attempt when all three fail.
    Only a recipient that is no public key throws without any
    attempt. *)
Theorem C5_every_failure_is_retried batch att w w' c :
  process_batch batch att w = (w', c) ->
  if valid_keys batch then
    let n := attempts_made batch att in
    (n <= MAX_RETRIES)%nat /\ MAX_RETRIES = 3%nat /\
    (exists t,
        trace w' = trace w ++ t /\
        submissions t =
        flat_map (fun j => submitted_by batch (att j)) (seq 0 n) /\
        sleeps t = repeat 2000 (n - 1) /\
        failures t =
        match first_ok batch att 0 MAX_RETRIES with
        | Some j => j
        | None => 3%nat
        end) /\
    match first_ok batch att 0 MAX_RETRIES with
    | Some j => c = Returned
    | None => c = Threw (error_of (att 2%nat))
    end /\
    (forall j bh sig,
        att j = ConfirmErr bh sig ->
        (forall i, (i < j)%nat -> attempt_ok batch (att i) = false) ->
        (S j < MAX_RETRIES)%nat ->
        (j + 2 <= n)%nat)
  else w' = w /\ c = Threw InvalidPublicKey.
Proof.
  intros H. destruct (valid_keys batch) eqn:Hk.
  - apply process_batch_spec in H; [|assumption].
    destruct H as [_ [[t [Ht [Hsub [Hsl Hfl]]]] Hres]].
    split; [apply attempts_made_le|]. split; [reflexivity|]. split.
    + exists t. split; [assumption|]. split; [assumption|].
      split; [assumption|]. rewrite Hfl. unfold attempts_made.
      destruct (first_ok batch att 0 MAX_RETRIES); [lia | reflexivity].
    + split.
      * destruct (first_ok batch att 0 MAX_RETRIES); tauto.
      * intros j bh sig Ea Hbefore Hj.
        apply attempts_made_after_failure; [|assumption].
        intros i Hi. destruct (Nat.eq_dec i j) as [->|Hne].
        -- rewrite Ea. reflexivity.
        -- apply Hbefore. lia.
  - rewrite process_batch_invalid in H by assumption.
    inversion H. auto.
Qed.

(** C3 (as amended): when the local write fails after a confirmed
    transfer, the local transaction is rolled back, the transfer stays
    on the cluster, and the attempt counts as failed like any other:
    if it was not the third one, the batch is built and submitted
    again as a new transfer; if it was, the batch throws and nothing
    of it is recorded. *)
Theorem C3_failed_local_write_restarts_the_attempt
        batch att w w' c j bh sig o :
  valid_keys batch = true ->
  process_batch batch att w = (w', c) ->
  (j < MAX_RETRIES)%nat ->
  (forall i, (i < j)%nat -> attempt_ok batch (att i) = false) ->
  att j = Confirmed bh sig o ->
  db_ok (2 * List.length batch + 2) o = false ->
  let n := attempts_made batch att in
  chain w' =
  chain w ++
  flat_map (fun i => landed_by batch (att i)) (seq 0 j) ++
  (sig, build_transaction batch bh) ::
  flat_map (fun i => landed_by batch (att i)) (seq (S j) (n - S j)) /\
  (exists t,
      trace w' = trace w ++ t /\
      submissions t =
      flat_map (fun i => submitted_by batch (att i)) (seq 0 j) ++
      build_transaction batch bh ::
      flat_map (fun i => submitted_by batch (att i)) (seq (S j) (n - S j))) /\
  if (S j <? MAX_RETRIES)%nat then
    seq (S j) (n - S j) = S j :: seq (S (S j)) (n - S (S j)) /\
    match first_ok batch att 0 MAX_RETRIES with
    | Some j' =>
        (j < j')%nat /\ c = Returned /\
        db w' = apply_batch (signature_of (att j')) batch (db w)
    | None => c = Threw (error_of (att 2%nat)) /\ db w' = db w
    end
  else c = Threw DbError /\ db w' = db w.
Proof.
  intros Hk H Hj Hbefore Ea Hdb n.
  assert (Hfail : forall i, (i <= j)%nat -> attempt_ok batch (att i) = false).
  { intros i Hi. destruct (Nat.eq_dec i j) as [->|Hne].
    - rewrite Ea. exact Hdb.
    - apply Hbefore. lia. }
  assert (Hn : (j < n)%nat).
  { unfold n, attempts_made.
    destruct (first_ok batch att 0 MAX_RETRIES) as [j'|] eqn:E; [|lia].
    apply first_ok_bounds in E as [_ [Hok _]].
    destruct (Nat.le_gt_cases j' j) as [Hle|Hgt]; [|lia].
    rewrite (Hfail j' Hle) in Hok. discriminate. }
  apply process_batch_spec in H; [|assumption].
  destruct H as [Hch [[t [Ht [Hsub _]]] Hres]]. fold n in Hch, Hsub.
  rewrite (flat_map_seq_split (fun i => landed_by batch (att i)) j n Hn) in Hch.
  rewrite (flat_map_seq_split (fun i => submitted_by batch (att i)) j n Hn)
    in Hsub.
  cbv beta in Hch, Hsub. rewrite Ea in Hch, Hsub.
  cbn [landed_by submitted_by app] in Hch, Hsub.
  split; [assumption|]. split; [exists t; auto|].
  destruct (S j <? MAX_RETRIES)%nat eqn:Enext.
  - apply Nat.ltb_lt in Enext.
    pose proof (attempts_made_after_failure batch att j Hfail Enext) as Hn2.
    fold n in Hn2. split.
    + replace (n - S j)%nat with (S (n - S (S j))) by lia. reflexivity.
    + destruct (first_ok batch att 0 MAX_RETRIES) as [j'|] eqn:E.
      * destruct Hres as [Hc Hd]. split; [|auto].
        apply first_ok_bounds in E as [_ [Hok _]].
        destruct (Nat.le_gt_cases j' j) as [Hle|Hgt]; [|lia].
        rewrite (Hfail j' Hle) in Hok. discriminate.
      * exact Hres.
  - apply Nat.ltb_ge in Enext.
    assert (Ej : j = 2%nat) by (unfold MAX_RETRIES in *; lia).
    destruct (first_ok batch att 0 MAX_RETRIES) as [j'|] eqn:E.
    + apply first_ok_bounds in E as [Hb [Hok _]].
      rewrite (Hfail j') in Hok by lia. discriminate.
    + destruct Hres as [Hc Hd]. change (MAX_RETRIES - 1)%nat with 2%nat in Hc.
      rewrite <- Ej, Ea in Hc. auto.
Qed.


(** ** One pass *)

Lemma log_rows_db (rows : list FeeRow) :
  forall w,
    db (fold_left (fun w r => emit (Logged LOG (creator r)) w) rows w) = db w /\
    chain (fold_left (fun w r => emit (Logged LOG (creator r)) w) rows w) =
    chain w.
Proof.
  induction rows as [|r rows IH]; intros w; cbn [fold_left]; [auto|].
  destruct (IH (emit (Logged LOG (creator r)) w)) as [Hd Hc].
  rewrite Hd, Hc. auto.
Qed.

Lemma aggregate_phase_spec w :
  db (fst (aggregate_phase w)) = db w /\
  chain (fst (aggregate_phase w)) = chain w /\
  snd (aggregate_phase w) = pass_rows (db w).
Proof.
  unfold aggregate_phase. cbn [fst snd emit db].
  match goal with
  | |- context [fold_left ?f ?rows ?w0] =>
      destruct (log_rows_db rows w0) as [Hd Hc]
  end.
  rewrite Hd, Hc. repeat split.
Qed.

Lemma processTransactions_spec env w w' c :
  processTransactions env w = (w', c) ->
  match pass_rows (db w) with
  | [] => c = Returned /\ db w' = db w /\ chain w' = chain w
  | _ :: _ =>
      exists w1 w2 c2,
        db w1 = db w /\ chain w1 = chain w /\
        sendSolanaTransactions (map distribution_of (pass_rows (db w)))
                               (attempts env) w1 = (w2, c2) /\
        match c2 with
        | Returned =>
            commit_phase (now env) (commit_throws env)
                         (ingest (ingested env) w2) = (w', c)
        | Threw e => w' = w2 /\ c = Threw e
        end
  end.
Proof.
  unfold processTransactions.
  destruct (aggregate_phase_spec w) as [Hd [Hc Hr]].
  destruct (aggregate_phase w) as [w0 rows]. cbn [fst snd] in *. subst rows.
  destruct (pass_rows (db w)) as [|r rows] eqn:Er; cbn [List.length Nat.ltb Nat.leb].
  - intros H. inversion H; subst. cbn [emit db chain]. auto.
  - intros H.
    set (w1 := emit (Logged LOG "Processing distributions:") w0) in *.
    destruct (sendSolanaTransactions (map distribution_of (r :: rows))
                (attempts env) w1) as [w2 c2] eqn:Es.
    exists w1, w2, c2. split; [exact Hd|]. split; [exact Hc|].
    split; [exact Es|].
    destruct c2 as [|e]; [assumption|]. inversion H; auto.
Qed.

(** ** The maximum id *)

Lemma max_id_spec (txs : list Transactions.row) (m : Z) :
  max_id txs = Some m <->
  (exists t, In t txs /\ Transactions.id t = m) /\
  (forall t, In t txs -> Transactions.id t <= m).
Proof.
  revert m. induction txs as [|t0 rest IH]; intros m; cbn [max_id].
  - split; [discriminate|]. intros [[t [[] _]] _].
  - destruct (max_id rest) as [m'|] eqn:E.
    + destruct (proj1 (IH m') eq_refl) as [[t' [Ht' Eid]] Hle].
      split.
      * intros H. inversion H; subst m; clear H. split.
        -- destruct (Z.max_spec (Transactions.id t0) (Transactions.id t'))
             as [[_ Em]|[_ Em]]; rewrite <- Eid, Em.
           ++ exists t'. split; [now right | reflexivity].
           ++ exists t0. split; [now left | reflexivity].
        -- intros t [<-|Ht]; [lia|]. specialize (Hle t Ht). lia.
      * intros [[t [Ht Et]] Hall]. f_equal.
        assert (Transactions.id t0 <= m) by (apply Hall; now left).
        assert (m' <= m) by (rewrite <- Eid; apply Hall; now right).
        destruct Ht as [<-|Ht]; [lia|]. specialize (Hle t Ht). lia.
    + assert (rest = []) as ->.
      { destruct rest as [|t1 rest']; [reflexivity|].
        cbn [max_id] in E. destruct (max_id rest'); discriminate. }
      split.
      * intros H. inversion H; subst m. split.
        -- exists t0. split; [now left | reflexivity].
        -- intros t [<-|[]]. lia.
      * intros [[t [[<-|[]] Et]] _]. now rewrite Et.
Qed.

Lemma max_id_none (txs : list Transactions.row) :
  max_id txs = None <-> txs = [].
Proof.
  split; [|intros ->; reflexivity].
  destruct txs as [|t rest]; [reflexivity|].
  cbn [max_id]. destruct (max_id rest); discriminate.
Qed.


Lemma pass_rows_event (d : Database) :
  pass_rows d <> [] ->
  exists t, In t (transactions d) /\ or_zero (read_cursor d) < Transactions.id t.
Proof.
  intros H. destruct (pass_rows d) as [|row rows] eqn:E; [congruence|].
  assert (Hin : In row (pass_rows d)) by (rewrite E; now left).
  apply accumulated_fees_In in Hin as [Hk _].
  apply in_map_iff in Hk as [[r q] [_ Hrq]].
  apply in_joined in Hrq as [t [c [Ht [_ [Hlt _]]]]]. eauto.
Qed.


Lemma pass_distributions_rows (d : Database) :
  pass_distributions d = map distribution_of (pass_rows d).
Proof. apply validDistributions_of_rows. Qed.

Lemma pass_distributions_NoDup (d : Database) :
  NoDup (map recipient (pass_distributions d)).
Proof.
  rewrite pass_distributions_rows, map_map. cbn [distribution_of recipient].
  apply accumulated_fees_NoDup.
Qed.

(** Every batch of a pass names each of its recipients once. *)
Lemma pass_batches_NoDup (d : Database) (b : nat) :
  NoDup (map recipient (nth_batch b (pass_distributions d))).
Proof. apply slice_NoDup, pass_distributions_NoDup. Qed.

Lemma first_ok_all_fail batch att :
  forall n from,
    (forall i, (from <= i < from + n)%nat -> attempt_ok batch (att i) = false) ->
    first_ok batch att from n = None.
Proof.
  induction n as [|n IH]; intros from H; [reflexivity|].
  cbn [first_ok]. rewrite (H from) by lia.
  apply IH. intros i Hi. apply H. lia.
Qed.

(** C6: when all three attempts of some batch of a pass fail, the pass
    throws (it is aborted, [handleCron] only logs), the tracker table
    and so the cursor are what they were before the pass, and the pass
    has added no row of fee_distributions for a recipient of that
    batch. *)
Theorem C6_exhausted_retries_abort_the_pass env w b :
  let valid := pass_distributions (db w) in
  (b * BATCH_SIZE < List.length valid)%nat ->
  (forall j, (j < MAX_RETRIES)%nat ->
             attempt_ok (nth_batch b valid) (attempts env b j) = false) ->
  exists w' e,
    processTransactions env w = (w', Threw e) /\
    e <> FuelExhausted /\
    transaction_tracker (db w') = transaction_tracker (db w) /\
    read_cursor (db w') = read_cursor (db w) /\
    paid_to (map recipient (nth_batch b valid)) (fee_distributions (db w')) =
    paid_to (map recipient (nth_batch b valid)) (fee_distributions (db w)) /\
    db (handleCron env w) = db w'.
Proof.
  intros valid Hb Hfail.
  assert (Hnone : first_ok (nth_batch b valid) (attempts env b) 0 MAX_RETRIES
                  = None).
  { apply first_ok_all_fail. intros i Hi. apply Hfail. lia. }
  destruct (processTransactions env w) as [w' c] eqn:H.
  pose proof (processTransactions_spec _ _ _ _ H) as Hs.
  assert (Hrows : pass_rows (db w) <> []).
  { intros E. unfold valid in Hb.
    rewrite pass_distributions_rows, E in Hb. cbn in Hb. lia. }
  destruct (pass_rows (db w)) as [|r0 rows0] eqn:Er; [congruence|].
  rewrite <- Er in Hs. destruct Hs as [w1 [w2 [c2 [Hd [_ [Hsend Hc]]]]]].
  apply sendSolanaTransactions_stops in Hsend.
  fold (pass_distributions (db w)) in Hsend. fold valid in Hsend.
  destruct Hsend as [[_ [_ Htr]] [stop [added [Hfd [Hrows' [Hbs Hstop]]]]]].
  assert (Hle : (stop <= b)%nat).
  { destruct (Nat.le_gt_cases stop b) as [|Hgt]; [assumption|].
    destruct (Hbs b Hgt) as [_ Hsome]. congruence. }
  destruct c2 as [|e].
  { exfalso. unfold BATCH_SIZE in *. lia. }
  destruct Hc as [-> ->].
  exists w2, e. split; [reflexivity|].
  split; [apply Hstop|].
  rewrite Hd in Htr, Hfd.
  split; [assumption|].
  split; [unfold read_cursor; rewrite Htr; reflexivity|].
  split.
  - rewrite Hfd. unfold paid_to. rewrite filter_app.
    rewrite (filter_none _ added); [apply app_nil_r|].
    intros row Hrow.
    destruct (existsb _ _) eqn:Eex; [|reflexivity]. exfalso.
    apply existsb_exists in Eex as [r [Hr Eeq]].
    apply String.eqb_eq in Eeq.
    apply in_map_iff in Hr as [dist' [Edist' Hdist']].
    unfold nth_batch in Hdist'. apply In_slice in Hdist' as [k' [Hk' Hn']].
    apply Hrows' in Hrow as [k [dist [Hk [Hn Erow]]]].
    assert (k = k').
    { eapply recipient_position;
        [apply (pass_distributions_NoDup (db w)) | exact Hn | exact Hn' |].
      congruence. }
    unfold BATCH_SIZE in *. lia.
  - unfold handleCron. rewrite H. reflexivity.
Qed.

(** ** The timer *)

Lemma remove_nth_length {A} (l : list A) :
  forall n, (List.length (remove_nth n l) <= List.length l)%nat.
Proof.
  induction l as [|x l IH]; intros [|n]; cbn; try lia.
  specialize (IH n). lia.
Qed.

Lemma replace_nth_length {A} (y : A) (l : list A) :
  forall n, List.length (replace_nth n y l) = List.length l.
Proof.
  induction l as [|x l IH]; intros [|n]; cbn; try lia.
  now rewrite IH.
Qed.

Lemma resume_running p env s :
  (List.length (running (resume p env s)) <= List.length (running s))%nat.
Proof.
  unfold resume.
  destruct (nth_error (running s) p) as [[|rows|]|]; [| | |lia].
  - destruct (aggregate_phase (world s)) as [w rows].
    destruct (0 <? List.length rows)%nat; cbn [running finish].
    + rewrite replace_nth_length. lia.
    + apply remove_nth_length.
  - destruct (sendSolanaTransactions _ _ _) as [w [|e]]; cbn [running finish].
    + rewrite replace_nth_length. lia.
    + apply remove_nth_length.
  - cbn [running finish]. apply remove_nth_length.
Qed.

Lemma spaced_at_most_one :
  forall es s,
    (List.length (running s) <= 1)%nat ->
    spaced s es ->
    (List.length (running (run s es)) <= 1)%nat.
Proof.
  induction es as [|e es IH]; intros s Hs Hsp; [assumption|].
  cbn [run fold_left]. destruct Hsp as [Htick Hsp].
  apply (IH (step s e)); [|assumption].
  destruct e as [|rows|p env]; cbn [step].
  - unfold on_tick. cbn [running]. rewrite (Htick eq_refl). cbn. lia.
  - cbn. assumption.
  - pose proof (resume_running p env s). lia.
Qed.

Lemma spaced_firstn :
  forall es s n, spaced s es -> spaced s (firstn n es).
Proof.
  induction es as [|e es IH]; intros s [|n] H; cbn; auto.
  destruct H as [Ht Hsp]. split; [assumption|]. now apply IH.
Qed.

(** Driven alone, without ingestion in between, the three stages are
    [handleCron]. *)
Lemma run_single_pass env w :
  ingested env = [] ->
  run (idle w) [Tick; Resume 0 env; Resume 0 env; Resume 0 env] =
  idle (handleCron env w).
Proof.
  intros Hing.
  change (run (idle w) [Tick; Resume 0 env; Resume 0 env; Resume 0 env])
    with (resume 0 env
            (resume 0 env
               (resume 0 env {| world := w; running := [AtStart] |}))).
  unfold handleCron, processTransactions.
  unfold resume at 3. cbn [running world nth_error].
  destruct (aggregate_phase w) as [w0 rows].
  destruct (0 <? List.length rows)%nat.
  - cbn [replace_nth]. unfold resume at 2. cbn [running world nth_error].
    destruct (sendSolanaTransactions _ _ _) as [w2 [|e]].
    + cbn [replace_nth]. unfold resume. cbn [running world nth_error].
      rewrite Hing.
      assert (E : ingest [] w2 = w2).
      { destruct w2 as [[t c tr f u] ch trc]. unfold ingest, with_db. cbn.
        rewrite app_nil_r. reflexivity. }
      rewrite E. unfold finish. cbn [remove_nth running].
      destruct (commit_phase _ _ _) as [w3 [|e]]; reflexivity.
    + unfold finish. cbn [remove_nth running].
      unfold resume. cbn [running world nth_error]. reflexivity.
  - unfold finish. cbn [remove_nth running].
    unfold resume. cbn [running world nth_error]. reflexivity.
Qed.

(** C9 (as amended): [handleCron] keeps no record of a pass in flight.
    Every tick of the timer starts a pass at once, whether or not
    others are running: none is skipped and none is queued.  At most
    one pass is running at every moment only of a schedule in which
    each tick comes after the pass before it has finished. *)
Theorem C9_every_tick_starts_a_pass (s : Service) (es : list Event) :
  (List.length (running s) <= 1)%nat ->
  spaced s es ->
  (forall s', running (step s' Tick) = running s' ++ [AtStart] /\
              world (step s' Tick) = world s') /\
  (forall n, (List.length (running (run s (firstn n es))) <= 1)%nat).
Proof.
  intros Hs Hsp. split.
  - intros s'. split; reflexivity.
  - intros n. apply spaced_at_most_one; [assumption|].
    now apply spaced_firstn.
Qed.

(** ** The cursor across passes *)

Lemma latest_tracker_snoc (rows : list Tracker.row) (r : Tracker.row) :
  latest_tracker (rows ++ [r]) =
  match latest_tracker rows with
  | None => Some r
  | Some b =>
      if Tracker.timestamp b <=? Tracker.timestamp r then Some r else Some b
  end.
Proof. unfold latest_tracker. rewrite fold_left_app. reflexivity. Qed.

Lemma latest_tracker_newest (rows : list Tracker.row) :
  match latest_tracker rows with
  | None => rows = []
  | Some b =>
      In b rows /\
      forall x, In x rows -> Tracker.timestamp x <= Tracker.timestamp b
  end.
Proof.
  induction rows as [|r rows IH] using rev_ind; [reflexivity|].
  rewrite latest_tracker_snoc.
  destruct (latest_tracker rows) as [b|].
  - destruct IH as [Hb Hmax].
    destruct (Tracker.timestamp b <=? Tracker.timestamp r) eqn:E.
    + apply Z.leb_le in E. split; [apply in_or_app; right; now left|].
      intros x Hx. apply in_app_or in Hx as [Hx|[<-|[]]]; [|lia].
      specialize (Hmax x Hx). lia.
    + apply Z.leb_gt in E. split; [apply in_or_app; now left|].
      intros x Hx. apply in_app_or in Hx as [Hx|[<-|[]]]; [|lia].
      now apply Hmax.
  - subst rows. split; [now left|]. intros x [<-|[]]. lia.
Qed.

(** X1: the cursor a pass inserts is the cursor the next pass reads when
    its timestamp is newer than every row of the tracker; when some row
    is newer than it, the read still gives the cursor of before. *)
Theorem X1_inserted_cursor_is_read_back (d : Database) (v : option Z) (t : Z) :
  ((forall r, In r (transaction_tracker d) -> Tracker.timestamp r < t) ->
   read_cursor (insert_tracker v t d) = v) /\
  ((exists r, In r (transaction_tracker d) /\ t < Tracker.timestamp r) ->
   read_cursor (insert_tracker v t d) = read_cursor d).
Proof.
  unfold read_cursor. cbn [insert_tracker transaction_tracker].
  rewrite latest_tracker_snoc.
  pose proof (latest_tracker_newest (transaction_tracker d)) as Hn.
  destruct (latest_tracker (transaction_tracker d)) as [b|].
  - destruct Hn as [Hb Hmax]. cbn [Tracker.timestamp]. split.
    + intros Hall. specialize (Hall b Hb).
      replace (Tracker.timestamp b <=? t) with true by lia. reflexivity.
    + intros [r [Hr Hlt]]. specialize (Hmax r Hr).
      replace (Tracker.timestamp b <=? t) with false by lia. reflexivity.
  - split; [reflexivity|]. intros [r [Hr _]]. rewrite Hn in Hr. contradiction.
Qed.

Lemma joined_nil (since : Z) (d : Database) :
  (forall t, In t (transactions d) -> Transactions.id t <= since) ->
  joined since d = [].
Proof.
  intros Hall. destruct (joined since d) as [|[r q] rest] eqn:E; [reflexivity|].
  assert (Hin : In (r, q) (joined since d)) by (rewrite E; now left).
  apply in_joined in Hin as [t [c [Ht [_ [Hlt _]]]]].
  specialize (Hall t Ht). lia.
Qed.

Lemma pass_rows_same_ledger (d d' : Database) :
  same_ledger d d' -> pass_rows d' = pass_rows d.
Proof.
  intros [Ht [Hc Htr]].
  unfold pass_rows, read_cursor, accumulated_fees, joined.
  rewrite Ht, Hc, Htr. reflexivity.
Qed.

(** X2: a pass that pays and commits, at a time after the rows of the
    tracker, moves the cursor strictly forward, to an id that no
    event of the table exceeds, be the event paid, below the threshold,
    of a coin without creator or ingested during the execution; a pass
    started on the result finds nothing to aggregate. *)
Theorem X2_committed_pass_moves_cursor_past_every_event env w w' :
  pass_rows (db w) <> [] ->
  processTransactions env w = (w', Returned) ->
  (forall r, In r (transaction_tracker (db w)) ->
             Tracker.timestamp r < now env) ->
  exists m,
    read_cursor (db w') = Some m /\
    or_zero (read_cursor (db w)) < m /\
    transactions (db w') = transactions (db w) ++ ingested env /\
    (forall t, In t (transactions (db w')) -> Transactions.id t <= m) /\
    pass_rows (db w') = [].
Proof.
  intros Hrows H Hts.
  destruct (pass_rows_event _ Hrows) as [t0 [Ht0 Hlt0]].
  pose proof (processTransactions_spec _ _ _ _ H) as Hs.
  destruct (pass_rows (db w)) as [|r0 rows0]; [congruence|].
  destruct Hs as [w1 [w2 [c2 [Hd [_ [Hsend Hc]]]]]].
  apply sendSolanaTransactions_stops in Hsend as [[Htx [_ Htr]] _].
  destruct c2 as [|e]; [|destruct Hc; discriminate].
  rewrite Hd in Htx, Htr.
  remember (ingest (ingested env) w2) as w3 eqn:Ew3.
  assert (E1 : transactions (db w3) = transactions (db w) ++ ingested env)
    by (subst w3; cbn [ingest with_db db transactions]; now rewrite Htx).
  assert (E2 : transaction_tracker (db w3) = transaction_tracker (db w))
    by (subst w3; cbn [ingest with_db db transaction_tracker]; exact Htr).
  clear Ew3. unfold commit_phase in Hc.
  destruct (commit_throws env); [discriminate|].
  inversion Hc; subst w'; clear Hc.
  cbn [emit with_db db].
  set (d3 := db w3) in *.
  destruct (max_id (transactions d3)) as [m|] eqn:Em.
  - pose proof (proj1 (max_id_spec _ _) Em) as [_ Hall].
    exists m.
    assert (Hread : read_cursor (insert_tracker (Some m) (now env) d3) = Some m).
    { apply X1_inserted_cursor_is_read_back. rewrite E2. exact Hts. }
    split; [exact Hread|]. split.
    + assert (Transactions.id t0 <= m).
      { apply Hall. rewrite E1. apply in_or_app. now left. }
      lia.
    + cbn [insert_tracker transactions].
      split; [exact E1|]. split; [exact Hall|].
      unfold pass_rows. rewrite Hread. cbn [or_zero].
      unfold accumulated_fees. rewrite joined_nil; [reflexivity|].
      cbn [insert_tracker transactions]. exact Hall.
  - apply max_id_none in Em. rewrite E1 in Em.
    apply app_eq_nil in Em as [Em _].
    rewrite Em in Ht0. contradiction.
Qed.

Lemma pass_rows_nil_below_threshold (d : Database) :
  (forall r,
      In r (map fst (joined (or_zero (read_cursor d)) d)) ->
      (group_sum (joined (or_zero (read_cursor d)) d) r < MIN_AMOUNT_THRESHOLD)%Q) ->
  pass_rows d = [].
Proof.
  intros Hbelow. destruct (pass_rows d) as [|row rows] eqn:E; [reflexivity|].
  assert (Hin : In row (pass_rows d)) by (rewrite E; now left).
  apply accumulated_fees_In in Hin as [Hk [Hs Hle]].
  specialize (Hbelow _ Hk). rewrite <- Hs in Hbelow.
  exfalso. exact (Qlt_not_le _ _ Hbelow Hle).
Qed.

(** X3: when every recipient with events beyond the cursor is below the
    threshold (or there is no such event), the pass returns without
    sending or writing anything: the database, the cursor included, and
    the cluster are as before, so the same events are aggregated again,
    with the later ones, by the next pass. *)
Theorem X3_pass_with_nothing_payable_changes_nothing env w :
  (forall r,
      In r (map fst (joined (or_zero (read_cursor (db w))) (db w))) ->
      (group_sum (joined (or_zero (read_cursor (db w))) (db w)) r <
       MIN_AMOUNT_THRESHOLD)%Q) ->
  snd (processTransactions env w) = Returned /\
  db (fst (processTransactions env w)) = db w /\
  chain (fst (processTransactions env w)) = chain w /\
  handleCron env w = fst (processTransactions env w).
Proof.
  intros Hbelow. apply pass_rows_nil_below_threshold in Hbelow.
  unfold handleCron.
  destruct (processTransactions env w) as [w' c] eqn:H.
  apply processTransactions_spec in H. rewrite Hbelow in H.
  destruct H as [-> [Hd Hc]]. cbn [fst snd]. auto.
Qed.

(** X4: a pass that throws, for whatever reason and whatever it has
    already paid and recorded, had something to pay and leaves the
    tracker, and so the cursor, as they were; it never writes coins or
    transactions; when no event was ingested meanwhile, the next pass
    aggregates the very same rows again. *)
Theorem X4_thrown_pass_is_repeated env w w' e :
  processTransactions env w = (w', Threw e) ->
  pass_rows (db w) <> [] /\
  transaction_tracker (db w') = transaction_tracker (db w) /\
  read_cursor (db w') = read_cursor (db w) /\
  coins (db w') = coins (db w) /\
  (transactions (db w') = transactions (db w) \/
   transactions (db w') = transactions (db w) ++ ingested env) /\
  (ingested env = [] -> pass_rows (db w') = pass_rows (db w)) /\
  db (handleCron env w) = db w'.
Proof.
  intros H.
  assert (Hcron : db (handleCron env w) = db w')
    by (unfold handleCron; rewrite H; reflexivity).
  apply processTransactions_spec in H.
  destruct (pass_rows (db w)) as [|r0 rows0] eqn:Er.
  { destruct H as [Hc _]. discriminate. }
  rewrite <- Er in *.
  split; [rewrite Er; discriminate|].
  destruct H as [w1 [w2 [c2 [Hd [_ [Hsend Hc]]]]]].
  apply sendSolanaTransactions_stops in Hsend as [[Htx [Hco Htr]] _].
  rewrite Hd in Htx, Hco, Htr.
  assert (Hfinal : transaction_tracker (db w') = transaction_tracker (db w) /\
                   coins (db w') = coins (db w) /\
                   (transactions (db w') = transactions (db w) \/
                    transactions (db w') = transactions (db w) ++ ingested env)).
  { destruct c2 as [|e2].
    - unfold commit_phase in Hc.
      destruct (commit_throws env); [|discriminate].
      inversion Hc; subst w'.
      cbn [ingest with_db db transaction_tracker coins transactions].
      rewrite Htx. auto.
    - destruct Hc as [-> _]. auto. }
  destruct Hfinal as [Ht' [Hc' Htx']].
  split; [assumption|].
  split; [unfold read_cursor; rewrite Ht'; reflexivity|].
  split; [assumption|]. split; [assumption|]. split; [|assumption].
  intros Hing. apply pass_rows_same_ledger.
  split; [|split; assumption].
  destruct Htx' as [E|E]; [assumption|].
  rewrite E, Hing. apply app_nil_r.
Qed.

(** ** What a run of the executor sends and writes *)

Lemma firstn_plus {A} (a b : nat) (l : list A) :
  firstn (a + b) l = firstn a l ++ firstn b (skipn a l).
Proof.
  revert l. induction a as [|a IH]; intros l; [reflexivity|].
  destruct l as [|x l]; cbn [Nat.add firstn skipn app].
  - now rewrite firstn_nil.
  - now rewrite IH.
Qed.

Lemma slice_slice {A} (i j k : nat) (l : list A) :
  (i <= j <= k)%nat -> slice i j l ++ slice j k l = slice i k l.
Proof.
  intros H. unfold slice.
  replace (k - i)%nat with ((j - i) + (k - j))%nat by lia.
  rewrite firstn_plus, skipn_skipn.
  replace (j - i + i)%nat with j by lia. reflexivity.
Qed.

Lemma slice_empty {A} (i : nat) (l : list A) : slice i i l = [].
Proof. unfold slice. now rewrite Nat.sub_diag. Qed.

Lemma nth_batch_length (b : nat) (valid : list Distribution) :
  List.length (nth_batch b valid) =
  Nat.min BATCH_SIZE (List.length valid - b * BATCH_SIZE).
Proof.
  unfold nth_batch, slice. rewrite length_firstn, length_skipn.
  f_equal. lia.
Qed.

Lemma claim_all_app (l1 l2 : list Distribution) (u : Users.row) :
  claim_all (l1 ++ l2) u = claim_all l2 (claim_all l1 u).
Proof. unfold claim_all. apply fold_left_app. Qed.

Lemma flat_map_short {A B} (f : A -> list B) (l : list A) :
  (forall x, (List.length (f x) <= 1)%nat) ->
  (List.length (flat_map f l) <= List.length l)%nat.
Proof.
  intros H. induction l as [|x l IH]; cbn [flat_map List.length]; [lia|].
  rewrite length_app. specialize (H x). lia.
Qed.

Lemma process_batch_run batch att w w' c :
  process_batch batch att w = (w', c) ->
  exists t ch,
    trace w' = trace w ++ t /\
    chain w' = chain w ++ ch /\
    (forall tx, In tx (submissions t) ->
                exists bh, tx = build_transaction batch bh) /\
    (forall p, In p ch -> exists bh, snd p = build_transaction batch bh) /\
    (List.length (submissions t) <= MAX_RETRIES)%nat /\
    Forall (eq RETRY_DELAY) (sleeps t) /\
    (List.length (sleeps t) <= MAX_RETRIES - 1)%nat.
Proof.
  intros H. destruct (valid_keys batch) eqn:Hk.
  - apply process_batch_spec in H; [|assumption].
    destruct H as [Hch [[t [Ht [Hsub [Hsl _]]]] _]].
    pose proof (attempts_made_le batch att) as Hn.
    exists t, (flat_map (fun j => landed_by batch (att j))
                        (seq 0 (attempts_made batch att))).
    split; [assumption|]. split; [assumption|]. split; [|split; [|split; [|split]]].
    + intros tx Htx. rewrite Hsub in Htx.
      apply in_flat_map in Htx as [j [_ Hj]].
      destruct (att j); cbn in Hj; try contradiction;
        destruct Hj as [<-|[]]; eauto.
    + intros p Hp. apply in_flat_map in Hp as [j [_ Hj]].
      destruct (att j) as [| | ? ? [|] | |]; cbn in Hj;
        try contradiction; destruct Hj as [<-|[]]; cbn; eauto.
    + rewrite Hsub.
      eapply Nat.le_trans; [apply flat_map_short|rewrite length_seq; exact Hn].
      intros j. destruct (att j); cbn; lia.
    + rewrite Hsl. apply Forall_forall. intros x Hx.
      apply repeat_spec in Hx. now subst.
    + rewrite Hsl, repeat_length. lia.
  - rewrite process_batch_invalid in H by assumption.
    inversion H; subst. exists [], []. rewrite !app_nil_r.
    repeat split; try constructor; try contradiction; cbn; lia.
Qed.

Lemma batches_rows_cons env valid b n :
  batches_rows env valid b (S n) =
  map (distribution_row (batch_signature env valid b)) (nth_batch b valid) ++
  batches_rows env valid (S b) n.
Proof. reflexivity. Qed.

(** The loop in full: the batches before the stop are recorded, each
    under the signature of its first attempt that succeeded; whatever
    was submitted or landed is a transaction built from one of the
    batches up to the stop. *)
Lemma batch_loop_run (valid : list Distribution) (env : nat -> nat -> Attempt) :
  forall fuel i b w w' c,
    i = (b * BATCH_SIZE)%nat ->
    (List.length valid <= i + fuel)%nat ->
    batch_loop fuel i b valid env w = (w', c) ->
    exists stop t ch,
      (b <= stop)%nat /\
      (forall b', (b <= b' < stop)%nat ->
                  (b' * BATCH_SIZE < List.length valid)%nat) /\
      fee_distributions (db w') =
      fee_distributions (db w) ++ batches_rows env valid b (stop - b) /\
      users (db w') =
      map (claim_all (slice (b * BATCH_SIZE) (stop * BATCH_SIZE) valid))
          (users (db w)) /\
      trace w' = trace w ++ t /\
      chain w' = chain w ++ ch /\
      (forall tx, In tx (submissions t) ->
         exists b' bh,
           (b' * BATCH_SIZE < List.length valid)%nat /\
           tx = build_transaction (nth_batch b' valid) bh) /\
      (forall p, In p ch ->
         exists b' bh,
           (b' * BATCH_SIZE < List.length valid)%nat /\
           snd p = build_transaction (nth_batch b' valid) bh) /\
      Forall (eq RETRY_DELAY) (sleeps t) /\
      match c with
      | Returned =>
          (List.length valid <= stop * BATCH_SIZE)%nat /\
          (List.length (submissions t) <= MAX_RETRIES * (stop - b))%nat /\
          (List.length (sleeps t) <= (MAX_RETRIES - 1) * (stop - b))%nat
      | Threw e =>
          (stop * BATCH_SIZE < List.length valid)%nat /\
          (List.length (submissions t) <= MAX_RETRIES * (S stop - b))%nat /\
          (List.length (sleeps t) <= (MAX_RETRIES - 1) * (S stop - b))%nat
      end.
Proof.
  assert (Hidle : forall b w,
             (List.length valid <= b * BATCH_SIZE)%nat ->
             exists stop t ch,
               (b <= stop)%nat /\
               (forall b', (b <= b' < stop)%nat ->
                           (b' * BATCH_SIZE < List.length valid)%nat) /\
               fee_distributions (db w) =
               fee_distributions (db w) ++ batches_rows env valid b (stop - b) /\
               users (db w) =
               map (claim_all (slice (b * BATCH_SIZE) (stop * BATCH_SIZE) valid))
                   (users (db w)) /\
               trace w = trace w ++ t /\
               chain w = chain w ++ ch /\
               (forall tx, In tx (submissions t) ->
                  exists b' bh,
                    (b' * BATCH_SIZE < List.length valid)%nat /\
                    tx = build_transaction (nth_batch b' valid) bh) /\
               (forall p, In p ch ->
                  exists b' bh,
                    (b' * BATCH_SIZE < List.length valid)%nat /\
                    snd p = build_transaction (nth_batch b' valid) bh) /\
               Forall (eq RETRY_DELAY) (sleeps t) /\
               (List.length valid <= stop * BATCH_SIZE)%nat /\
               (List.length (submissions t) <= MAX_RETRIES * (stop - b))%nat /\
               (List.length (sleeps t) <= (MAX_RETRIES - 1) * (stop - b))%nat).
  { intros b w Hb. exists b, [], [].
    rewrite Nat.sub_diag, slice_empty. cbn [batches_rows seq flat_map].
    rewrite !app_nil_r.
    split; [lia|]. split; [intros; lia|]. split; [reflexivity|].
    split; [unfold claim_all; cbn; now rewrite map_id|].
    split; [reflexivity|]. split; [reflexivity|].
    split; [intros ? []|]. split; [intros ? []|].
    split; [constructor|]. cbn. split; [assumption|]. lia. }
  induction fuel as [|fuel IH]; intros i b w w' c Hi Hfuel H.
  - cbn [batch_loop] in H.
    replace (i <? List.length valid)%nat with false in H
      by (symmetry; apply Nat.ltb_ge; lia).
    inversion H; subst w' c. apply Hidle. lia.
  - cbn [batch_loop] in H.
    destruct (i <? List.length valid)%nat eqn:Elt.
    + apply Nat.ltb_lt in Elt.
      replace (slice i (i + BATCH_SIZE) valid) with (nth_batch b valid) in H
        by (unfold nth_batch; subst i; reflexivity).
      destruct (process_batch (nth_batch b valid) (env b) w) as [w1 c1] eqn:Ep.
      pose proof (process_batch_db _ _ _ _ _ Ep) as Hdb.
      apply process_batch_run in Ep.
      destruct Ep as [t1 [ch1 [Ht1 [Hch1 [Hsub1 [Hland1 [Hn1 [Hsl1 Hm1]]]]]]]].
      destruct c1 as [|e].
      * destruct Hdb as [_ [j [Hj Hd]]].
        apply IH in H; [|subst i; unfold BATCH_SIZE; lia|unfold BATCH_SIZE; lia].
        destruct H as [stop [t2 [ch2 [Hstop [Hin [Hfd [Hus [Ht2 [Hch2
                      [Hsub2 [Hland2 [Hsl2 Hc]]]]]]]]]]]].
        exists stop, (t1 ++ t2), (ch1 ++ ch2).
        split; [lia|]. split.
        { intros b' Hb'. destruct (Nat.eq_dec b' b) as [->|Hne]; [lia|].
          apply Hin. lia. }
        split.
        { rewrite Hfd, Hd. cbn [apply_batch fee_distributions].
          replace (stop - b)%nat with (S (stop - S b)) by lia.
          rewrite batches_rows_cons, <- app_assoc.
          unfold batch_signature at 1. rewrite Hj. reflexivity. }
        split.
        { rewrite Hus, Hd. cbn [apply_batch users]. rewrite map_map.
          apply map_ext. intros u. rewrite <- claim_all_app.
          unfold nth_batch. f_equal.
          replace (b * BATCH_SIZE + BATCH_SIZE)%nat with (S b * BATCH_SIZE)%nat
            by lia.
          apply slice_slice. unfold BATCH_SIZE. lia. }
        split; [rewrite Ht2, Ht1; symmetry; apply app_assoc|].
        split; [rewrite Hch2, Hch1; symmetry; apply app_assoc|].
        split.
        { intros tx Htx. rewrite submissions_app in Htx.
          apply in_app_or in Htx as [Htx|Htx]; [|now apply Hsub2].
          apply Hsub1 in Htx as [bh ->]. exists b, bh. split; [lia | reflexivity]. }
        split.
        { intros p Hp. apply in_app_or in Hp as [Hp|Hp]; [|now apply Hland2].
          apply Hland1 in Hp as [bh Hp]. exists b, bh. split; [lia | assumption]. }
        split; [rewrite sleeps_app; apply Forall_app; split; assumption|].
        rewrite submissions_app, sleeps_app, !length_app.
        destruct c as [|e]; destruct Hc as [Hlen [Hs Hz]];
          (split; [assumption|]); split; nia.
      * inversion H; subst w' c; clear H.
        destruct Hdb as [Hd _].
        exists b, t1, ch1.
        rewrite Nat.sub_diag, slice_empty, Hd.
        cbn [batches_rows seq flat_map]. rewrite ?app_nil_r.
        split; [lia|]. split; [intros; lia|]. split; [reflexivity|].
        split; [unfold claim_all; cbn; now rewrite map_id|].
        split; [assumption|]. split; [assumption|].
        split.
        { intros tx Htx. apply Hsub1 in Htx as [bh ->].
          exists b, bh. split; [lia | reflexivity]. }
        split.
        { intros p Hp. apply Hland1 in Hp as [bh Hp].
          exists b, bh. split; [lia | assumption]. }
        split; [assumption|].
        replace (S b - b)%nat with 1%nat by lia.
        split; [lia|]. split; lia.
    + apply Nat.ltb_ge in Elt. inversion H; subst w' c. apply Hidle. lia.
Qed.

Lemma sendSolanaTransactions_run distributions env w w' c :
  sendSolanaTransactions distributions env w = (w', c) ->
  let valid := validDistributions_of distributions in
  exists stop t ch,
    (forall b', (b' < stop)%nat -> (b' * BATCH_SIZE < List.length valid)%nat) /\
    fee_distributions (db w') =
    fee_distributions (db w) ++ batches_rows env valid 0 stop /\
    users (db w') =
    map (claim_all (firstn (stop * BATCH_SIZE) valid)) (users (db w)) /\
    trace w' = trace w ++ t /\
    chain w' = chain w ++ ch /\
    (forall tx, In tx (submissions t) ->
       exists b' bh,
         (b' * BATCH_SIZE < List.length valid)%nat /\
         tx = build_transaction (nth_batch b' valid) bh) /\
    (forall p, In p ch ->
       exists b' bh,
         (b' * BATCH_SIZE < List.length valid)%nat /\
         snd p = build_transaction (nth_batch b' valid) bh) /\
    Forall (eq RETRY_DELAY) (sleeps t) /\
    match c with
    | Returned =>
        (List.length valid <= stop * BATCH_SIZE)%nat /\
        (List.length (submissions t) <= MAX_RETRIES * stop)%nat /\
        (List.length (sleeps t) <= (MAX_RETRIES - 1) * stop)%nat
    | Threw e =>
        (stop * BATCH_SIZE < List.length valid)%nat /\
        (List.length (submissions t) <= MAX_RETRIES * S stop)%nat /\
        (List.length (sleeps t) <= (MAX_RETRIES - 1) * S stop)%nat
    end.
Proof.
  intros H valid. unfold sendSolanaTransactions in H. cbv zeta in H.
  fold (validDistributions_of distributions) in H. fold valid in H.
  destruct (List.length valid =? 0)%nat eqn:E.
  - apply Nat.eqb_eq in E. inversion H; subst w' c.
    exists 0%nat, [Logged LOG "No distributions above minimum threshold"], [].
    cbn [emit db chain trace batches_rows seq flat_map Nat.mul firstn].
    rewrite !app_nil_r.
    split; [intros; lia|]. split; [reflexivity|].
    split; [unfold claim_all; cbn; now rewrite map_id|].
    split; [reflexivity|]. split; [reflexivity|].
    split; [intros ? []|]. split; [intros ? []|].
    split; [constructor|]. cbn. lia.
  - apply batch_loop_run in H; [|reflexivity|lia].
    destruct H as [stop [t [ch [_ [Hin [Hfd [Hus [Ht [Hch [Hsub [Hland
                  [Hsl Hc]]]]]]]]]]]].
    exists stop, t, ch. rewrite Nat.sub_0_r in Hfd.
    unfold slice in Hus. rewrite Nat.sub_0_r in Hus. cbn [Nat.mul skipn] in Hus.
    split; [intros b' Hb'; apply Hin; lia|].
    repeat (split; [assumption|]).
    destruct c; rewrite ?Nat.sub_0_r in Hc; exact Hc.
Qed.






(** ** What is sent *)




Lemma batch_count_bound (valid : list Distribution) (k : nat) :
  (k = 0 \/ (k - 1) * BATCH_SIZE < List.length valid)%nat ->
  (k <= batch_count valid)%nat.
Proof.
  intros H. unfold batch_count.
  apply Nat.div_le_lower_bound; unfold BATCH_SIZE in *; lia.
Qed.

(** X8: one call of [sendSolanaTransactions] submits at most 3
    transactions for each batch of 10 valid distributions and sleeps at
    most twice for each, always 2000 ms: the work of a call is bounded by
    the number of valid distributions. *)
Theorem X8_submissions_and_delays_are_bounded distributions env w w' c :
  sendSolanaTransactions distributions env w = (w', c) ->
  exists t,
    trace w' = trace w ++ t /\
    (List.length (submissions t) <=
     3 * batch_count (validDistributions_of distributions))%nat /\
    (List.length (sleeps t) <=
     2 * batch_count (validDistributions_of distributions))%nat /\
    Forall (eq 2000) (sleeps t).
Proof.
  intros H. apply sendSolanaTransactions_run in H.
  destruct H as [stop [t [ch [Hin [_ [_ [Ht [_ [_ [_ [Hsl Hc]]]]]]]]]]].
  exists t. split; [assumption|].
  set (valid := validDistributions_of distributions) in *.
  assert (Hk : (match c with Returned => stop | Threw _ => S stop end
                <= batch_count valid)%nat).
  { apply batch_count_bound. destruct c as [|e].
    - destruct stop as [|s]; [now left|]. right.
      cbn [Nat.sub]. rewrite Nat.sub_0_r. apply Hin. lia.
    - right. cbn [Nat.sub]. rewrite Nat.sub_0_r. apply Hc. }
  change (MAX_RETRIES - 1)%nat with 2%nat in Hc.
  change MAX_RETRIES with 3%nat in Hc.
  split; [|split; [|exact Hsl]]; destruct c; lia.
Qed.

(** ** When nothing fails *)

Lemma batches_concat {B} (g : Distribution -> B) (valid : list Distribution) :
  forall n b,
    flat_map (fun b' => map g (nth_batch b' valid)) (seq b n) =
    map g (slice (b * BATCH_SIZE) ((b + n) * BATCH_SIZE) valid).
Proof.
  induction n as [|n IH]; intros b.
  - rewrite Nat.add_0_r, slice_empty. reflexivity.
  - cbn [seq flat_map]. rewrite IH, <- map_app. f_equal. unfold nth_batch.
    replace (b * BATCH_SIZE + BATCH_SIZE)%nat with (S b * BATCH_SIZE)%nat by lia.
    replace (S b + n)%nat with (b + S n)%nat by lia.
    apply slice_slice. lia.
Qed.

Lemma process_batch_first_attempt batch att w w' c :
  valid_keys batch = true ->
  attempt_ok batch (att 0%nat) = true ->
  process_batch batch att w = (w', c) ->
  c = Returned /\
  chain w' = chain w ++ landed_by batch (att 0%nat) /\
  exists t,
    trace w' = trace w ++ t /\
    submissions t = submitted_by batch (att 0%nat) /\
    sleeps t = [].
Proof.
  intros Hk Hok H. apply process_batch_spec in H; [|assumption].
  assert (Ef : first_ok batch att 0 MAX_RETRIES = Some 0%nat)
    by (unfold MAX_RETRIES; cbn [first_ok]; now rewrite Hok).
  unfold attempts_made in H. rewrite Ef in H.
  cbn [seq flat_map Nat.sub repeat] in H. rewrite !app_nil_r in H.
  destruct H as [Hch [[t [Ht [Hsub [Hsl _]]]] [Hc _]]].
  split; [assumption|]. split; [assumption|]. exists t. auto.
Qed.

Lemma batch_loop_happy (valid : list Distribution) (env : nat -> nat -> Attempt) :
  (forall b, (b * BATCH_SIZE < List.length valid)%nat ->
             valid_keys (nth_batch b valid) = true /\
             attempt_ok (nth_batch b valid) (env b 0%nat) = true) ->
  forall fuel i b w w' c,
    i = (b * BATCH_SIZE)%nat ->
    (List.length valid <= i + fuel)%nat ->
    batch_loop fuel i b valid env w = (w', c) ->
    c = Returned /\
    exists n t,
      (List.length valid <= (b + n) * BATCH_SIZE)%nat /\
      (n = 0 \/ (b + n - 1) * BATCH_SIZE < List.length valid)%nat /\
      chain w' =
      chain w ++
      flat_map (fun b' => landed_by (nth_batch b' valid) (env b' 0%nat)) (seq b n) /\
      trace w' = trace w ++ t /\
      submissions t =
      flat_map (fun b' => submitted_by (nth_batch b' valid) (env b' 0%nat))
               (seq b n) /\
      sleeps t = [].
Proof.
  intros Hok.
  assert (Hidle : forall b w,
             (List.length valid <= b * BATCH_SIZE)%nat ->
             exists n t,
               (List.length valid <= (b + n) * BATCH_SIZE)%nat /\
               (n = 0 \/ (b + n - 1) * BATCH_SIZE < List.length valid)%nat /\
               chain w =
               chain w ++
               flat_map (fun b' => landed_by (nth_batch b' valid) (env b' 0%nat))
                        (seq b n) /\
               trace w = trace w ++ t /\
               submissions t =
               flat_map (fun b' => submitted_by (nth_batch b' valid) (env b' 0%nat))
                        (seq b n) /\
               sleeps t = []).
  { intros b w Hb. exists 0%nat, []. cbn [seq flat_map]. rewrite !app_nil_r.
    split; [lia|]. split; [now left|]. auto. }
  induction fuel as [|fuel IH]; intros i b w w' c Hi Hfuel H.
  - cbn [batch_loop] in H.
    replace (i <? List.length valid)%nat with false in H
      by (symmetry; apply Nat.ltb_ge; lia).
    inversion H; subst w' c. split; [reflexivity|]. apply Hidle. lia.
  - cbn [batch_loop] in H.
    destruct (i <? List.length valid)%nat eqn:Elt.
    + apply Nat.ltb_lt in Elt.
      replace (slice i (i + BATCH_SIZE) valid) with (nth_batch b valid) in H
        by (unfold nth_batch; subst i; reflexivity).
      destruct (Hok b) as [Hk Ha]; [lia|].
      destruct (process_batch (nth_batch b valid) (env b) w) as [w1 c1] eqn:Ep.
      apply process_batch_first_attempt in Ep; [|assumption|assumption].
      destruct Ep as [-> [Hch1 [t1 [Ht1 [Hsub1 Hsl1]]]]].
      apply IH in H; [|subst i; unfold BATCH_SIZE; lia|unfold BATCH_SIZE; lia].
      destruct H as [-> [n [t2 [Hlen [Hlast [Hch [Ht [Hsub Hsl]]]]]]]].
      split; [reflexivity|].
      exists (S n), (t1 ++ t2). cbn [seq flat_map].
      split; [unfold BATCH_SIZE in *; lia|].
      split.
      { right. destruct Hlast as [->|Hlast].
        - replace (b + 1 - 1)%nat with b by lia. lia.
        - replace (b + S n - 1)%nat with (S b + n - 1)%nat by lia. exact Hlast. }
      split; [rewrite Hch, Hch1; symmetry; apply app_assoc|].
      split; [rewrite Ht, Ht1; symmetry; apply app_assoc|].
      rewrite submissions_app, sleeps_app, Hsub1, Hsl1, Hsub, Hsl. auto.
    + apply Nat.ltb_ge in Elt.
      inversion H; subst w' c. split; [reflexivity|]. apply Hidle. lia.
Qed.

(** X9: when all recipients are public keys and the first attempt of
    every batch is confirmed and recorded, [sendSolanaTransactions]
    returns without any delay; it has submitted one transaction for each
    batch and all of them have landed; their transfers, taken in order,
    are one transfer for each valid distribution, in the order of the
    input. *)
Theorem X9_one_transfer_for_each_valid_distribution distributions env w w' c :
  (forall b,
      (b * BATCH_SIZE < List.length (validDistributions_of distributions))%nat ->
      valid_keys (nth_batch b (validDistributions_of distributions)) = true /\
      attempt_ok (nth_batch b (validDistributions_of distributions))
                 (env b 0%nat) = true) ->
  sendSolanaTransactions distributions env w = (w', c) ->
  c = Returned /\
  exists t ch,
    trace w' = trace w ++ t /\
    chain w' = chain w ++ ch /\
    sleeps t = [] /\
    submissions t = map snd ch /\
    List.length ch = batch_count (validDistributions_of distributions) /\
    List.concat (map (fun p => instructions (snd p)) ch) =
    map transfer_of (validDistributions_of distributions).
Proof.
  intros Hok H. unfold sendSolanaTransactions in H. cbv zeta in H.
  fold (validDistributions_of distributions) in H.
  set (valid := validDistributions_of distributions) in *.
  destruct (List.length valid =? 0)%nat eqn:E.
  - apply Nat.eqb_eq in E. inversion H; subst w' c. split; [reflexivity|].
    exists [Logged LOG "No distributions above minimum threshold"], [].
    cbn [emit chain trace]. rewrite app_nil_r.
    apply length_zero_iff_nil in E. rewrite E.
    repeat split; reflexivity.
  - apply (batch_loop_happy valid env Hok) in H; [|reflexivity|lia].
    destruct H as [-> [n [t [Hlen [Hlast [Hch [Ht [Hsub Hsl]]]]]]]].
    cbn [Nat.add] in Hlen, Hlast.
    split; [reflexivity|].
    exists t, (flat_map (fun b' => landed_by (nth_batch b' valid) (env b' 0%nat))
                        (seq 0 n)).
    assert (Hconf : forall b', In b' (seq 0 n) ->
               exists bh sig o,
                 env b' 0%nat = Confirmed bh sig o).
    { intros b' Hb'. apply in_seq in Hb'.
      destruct (Hok b') as [_ Ha].
      - destruct Hlast as [->|Hlast]; [lia|]. unfold BATCH_SIZE in *. lia.
      - apply attempt_ok_confirmed in Ha as [bh [sig [o [Ea _]]]]. eauto. }
    split; [assumption|]. split; [assumption|]. split; [assumption|].
    assert (Hshape :
              flat_map (fun b' => landed_by (nth_batch b' valid) (env b' 0%nat))
                       (seq 0 n) =
              map (fun b' => (signature_of (env b' 0%nat),
                              build_transaction (nth_batch b' valid)
                                match env b' 0%nat with
                                | Confirmed bh _ _ => bh
                                | _ => ""
                                end))
                  (seq 0 n) /\
              flat_map (fun b' => submitted_by (nth_batch b' valid) (env b' 0%nat))
                       (seq 0 n) =
              map (fun b' => build_transaction (nth_batch b' valid)
                               match env b' 0%nat with
                               | Confirmed bh _ _ => bh
                               | _ => ""
                               end)
                  (seq 0 n)).
    { revert Hconf. generalize (seq 0 n). intros l Hconf.
      induction l as [|b' l IHl]; [split; reflexivity|].
      destruct IHl as [IH1 IH2]; [intros x Hx; apply Hconf; now right|].
      destruct (Hconf b' (or_introl eq_refl)) as [bh [sig [o Ea]]].
      cbn [flat_map map]. rewrite IH1, IH2, Ea. split; reflexivity. }
    destruct Hshape as [Hl Hs]. rewrite Hl, Hsub, Hs.
    split; [rewrite map_map; reflexivity|].
    split.
    + rewrite length_map, length_seq.
      apply Nat.le_antisymm.
      * apply batch_count_bound. destruct Hlast as [->|Hlast]; [now left|].
        now right.
      * unfold batch_count. apply Nat.lt_succ_r.
        apply Nat.Div0.div_lt_upper_bound. unfold BATCH_SIZE in *. lia.
    + rewrite map_map. cbn [snd build_transaction instructions].
      rewrite <- flat_map_concat_map, batches_concat.
      cbn [Nat.mul Nat.add]. unfold slice. rewrite Nat.sub_0_r. cbn [skipn].
      f_equal. apply firstn_all2. exact Hlen.
Qed.

(** ** The earlier versions *)

Lemma insert_rows_v1_spec sig batch :
  forall o d,
    fee_distributions (fst (insert_rows_v1 sig batch o d)) =
    fee_distributions d ++
    map (distribution_row sig)
        (match o with Some k => firstn k batch | None => batch end) /\
    same_ledger d (fst (insert_rows_v1 sig batch o d)) /\
    users (fst (insert_rows_v1 sig batch o d)) = users d /\
    snd (insert_rows_v1 sig batch o d) =
    match o with
    | Some k => if (k <? List.length batch)%nat then Threw DbError else Returned
    | None => Returned
    end.
Proof.
  induction batch as [|dist rest IH]; intros o d.
  - cbn [insert_rows_v1 fst snd List.length].
    destruct o as [k|]; rewrite ?firstn_nil; cbn [map]; rewrite app_nil_r;
      repeat split.
  - cbn [insert_rows_v1].
    destruct o as [[|k]|]; cbn [throws_now after_query fst snd].
    + cbn [firstn map]. rewrite app_nil_r. repeat split.
    + destruct (IH (Some k) (insert_distribution sig dist d))
        as [Hfd [[Ht [Hc Htr]] [Hu Hs]]].
      rewrite Hfd, Hu, Hs. cbn [insert_distribution fee_distributions users
                                firstn map List.length].
      rewrite <- app_assoc.
      split; [reflexivity|]. split; [repeat split; assumption|].
      split; reflexivity.
    + destruct (IH None (insert_distribution sig dist d))
        as [Hfd [[Ht [Hc Htr]] [Hu Hs]]].
      rewrite Hfd, Hu, Hs. cbn [insert_distribution fee_distributions users map].
      rewrite <- app_assoc.
      split; [reflexivity|]. split; [repeat split; assumption|].
      split; reflexivity.
Qed.

Lemma aggregate_phase_v1_spec w :
  db (fst (aggregate_phase_v1 w)) = db w /\
  chain (fst (aggregate_phase_v1 w)) = chain w /\
  snd (aggregate_phase_v1 w) = summed_quantities (or_zero (read_cursor (db w))) (db w).
Proof.
  unfold aggregate_phase_v1. cbn [fst snd emit db].
  match goal with
  | |- context [fold_left ?f ?rows ?w0] =>
      destruct (log_rows_db rows w0) as [Hd Hc]
  end.
  rewrite Hd, Hc. repeat split.
Qed.

(** X10: in the version without the retry loop the rows are written one
    query at a time, outside any transaction.  When the INSERT number [k]
    of the first batch throws after the transfer was confirmed, the pass
    throws with all recipients of the batch paid on the cluster, the
    first [k] of them recorded, the others not, and the cursor where it
    was. *)
Theorem X10_v1_rows_before_a_failed_insert_stay env w w' c bh sig k :
  valid_keys
    (nth_batch 0 (map distribution_of
                      (summed_quantities (or_zero (read_cursor (db w))) (db w)))) =
  true ->
  attempts env 0%nat 0%nat = Confirmed bh sig (Some k) ->
  (k < List.length
         (nth_batch 0 (map distribution_of
                           (summed_quantities (or_zero (read_cursor (db w)))
                                              (db w)))))%nat ->
  processTransactions_v1 env w = (w', c) ->
  c = Threw DbError /\
  chain w' =
  chain w ++
  [ (sig,
     build_transaction
       (nth_batch 0 (map distribution_of
                         (summed_quantities (or_zero (read_cursor (db w)))
                                            (db w)))) bh) ] /\
  fee_distributions (db w') =
  fee_distributions (db w) ++
  map (distribution_row sig)
      (firstn k (map distribution_of
                     (summed_quantities (or_zero (read_cursor (db w))) (db w)))) /\
  users (db w') = users (db w) /\
  transaction_tracker (db w') = transaction_tracker (db w).
Proof.
  intros Hk Ea Hlt H. unfold processTransactions_v1 in H.
  destruct (aggregate_phase_v1_spec w) as [Hd [Hc Hr]].
  destruct (aggregate_phase_v1 w) as [w0 rows]. cbn [fst snd] in Hd, Hc, Hr.
  rewrite <- Hr in Hk, Hlt. rewrite <- Hr. clear Hr.
  set (dists := map distribution_of rows) in *.
  assert (Hlen : (0 < List.length dists)%nat).
  { rewrite nth_batch_length in Hlt. lia. }
  replace (0 <? List.length rows)%nat with true in H
    by (symmetry; apply Nat.ltb_lt; unfold dists in Hlen;
        now rewrite length_map in Hlen).
  fold dists in H.
  unfold sendSolanaTransactions_v1 in H.
  destruct (List.length dists) as [|n] eqn:En; [lia|].
  cbn [batch_loop_v1] in H. rewrite En in H.
  replace (0 <? S n)%nat with true in H by reflexivity.
  change (slice 0 (0 + BATCH_SIZE) dists) with (nth_batch 0 dists) in H.
  unfold process_batch_v1 in H. unfold valid_keys in Hk. rewrite Hk in H.
  cbn [negb] in H. rewrite Ea in H. cbn [try_block_v1] in H.
  match type of H with
  | context [insert_rows_v1 ?s ?b ?o ?d] =>
      destruct (insert_rows_v1_spec s b o d) as [Hfd [[_ [_ Htr]] [Hu Hs]]];
      destruct (insert_rows_v1 s b o d) as [d1 c1]
  end.
  cbn [fst snd] in Hfd, Htr, Hu, Hs.
  replace (k <? List.length (nth_batch 0 dists))%nat with true in Hs
    by (symmetry; apply Nat.ltb_lt; exact Hlt).
  subst c1. inversion H; subst w' c; clear H.
  cbn [emit land with_db db chain] in *.
  split; [reflexivity|]. split; [now rewrite Hc|].
  rewrite Hfd, Hu, Htr, Hd.
  split; [|split; reflexivity].
  f_equal. f_equal. unfold nth_batch, slice.
  cbn [Nat.mul Nat.add skipn]. rewrite Nat.sub_0_r.
  rewrite firstn_firstn. f_equal.
  rewrite nth_batch_length in Hlt. unfold BATCH_SIZE in *. lia.
Qed.

Lemma summed_quantities_nil (since : Z) (d : Database) :
  summed_quantities since d = [] <-> joined since d = [].
Proof.
  unfold summed_quantities, group_keys. split.
  - intros H. apply map_eq_nil in H.
    destruct (joined since d) as [|p rest]; [reflexivity|].
    assert (Hin : In (fst p) (nodup string_dec (map fst (p :: rest))))
      by (apply nodup_In; now left).
    rewrite H in Hin. contradiction.
  - intros ->. reflexivity.
Qed.

(** X11: the first version of [processTransactions] pays nothing.  It
    inserts MAX(id) as the new cursor exactly when some event beyond the
    cursor belongs to a coin with a creator, and otherwise writes
    nothing; a throw of the insert leaves the database as it was. *)
Theorem X11_v0_pass_only_moves_the_cursor t throws w :
  chain (fst (processTransactions_v0 t throws w)) = chain w /\
  (joined (or_zero (read_cursor (db w))) (db w) = [] ->
   processTransactions_v0 t throws w =
   (fst (processTransactions_v0 t throws w), Returned) /\
   db (fst (processTransactions_v0 t throws w)) = db w) /\
  (joined (or_zero (read_cursor (db w))) (db w) <> [] ->
   if throws
   then snd (processTransactions_v0 t throws w) = Threw DbError /\
        db (fst (processTransactions_v0 t throws w)) = db w
   else snd (processTransactions_v0 t throws w) = Returned /\
        db (fst (processTransactions_v0 t throws w)) =
        insert_tracker (max_id (transactions (db w))) t (db w)).
Proof.
  unfold processTransactions_v0.
  destruct (aggregate_phase_v1_spec w) as [Hd [Hc Hr]].
  destruct (aggregate_phase_v1 w) as [w0 rows]. cbn [fst snd] in Hd, Hc, Hr.
  pose proof (summed_quantities_nil (or_zero (read_cursor (db w))) (db w)) as Hnil.
  rewrite <- Hr in Hnil.
  destruct rows as [|r rows]; cbn [List.length Nat.ltb Nat.leb].
  - cbn [fst snd emit chain db]. split; [assumption|]. split.
    + intros _. split; [reflexivity | assumption].
    + intros Hne. exfalso. apply Hne. now apply Hnil.
  - unfold commit_phase. split; [destruct throws; cbn; assumption|]. split.
    + intros E. apply Hnil in E. discriminate.
    + intros _. destruct throws; cbn [fst snd emit with_db db].
      * split; [reflexivity | assumption].
      * rewrite Hd. split; reflexivity.
Qed.


Lemma process_batch_v1_run batch a w w' c :
  process_batch_v1 batch a w = (w', c) ->
  exists t k,
    trace w' = trace w ++ t /\
    sleeps t = [] /\
    (List.length (submissions t) <= 1)%nat /\
    fee_distributions (db w') =
    fee_distributions (db w) ++
    map (distribution_row (signature_of a)) (firstn k batch) /\
    users (db w') = users (db w) /\
    same_ledger (db w) (db w') /\
    match c with
    | Returned => (List.length batch <= k)%nat
    | Threw e => e <> FuelExhausted
    end.
Proof.
  unfold process_batch_v1.
  destruct (negb (forallb (fun dist => isPublicKey (recipient dist)) batch)).
  { intros H. inversion H; subst w' c. exists [], 0%nat.
    cbn [firstn map sleeps submissions flat_map List.length].
    rewrite !app_nil_r. repeat split; try lia. discriminate. }
  destruct a as [|bh|bh sig landed|bh sig|bh sig o]; cbn [try_block_v1].
  - intros H. inversion H; subst w' c.
    exists [Logged ERROR "Failed to process batch"], 0%nat.
    cbn. rewrite app_nil_r. repeat split; try lia. discriminate.
  - intros H. inversion H; subst w' c.
    exists [Submitted (build_transaction batch bh);
            Logged ERROR "Failed to process batch"], 0%nat.
    cbn. rewrite app_nil_r, <- app_assoc. repeat split; try lia. discriminate.
  - intros H. inversion H; subst w' c.
    exists [Submitted (build_transaction batch bh);
            Logged ERROR "Failed to process batch"], 0%nat.
    destruct landed; cbn; rewrite app_nil_r, <- app_assoc;
      repeat split; try lia; discriminate.
  - intros H. inversion H; subst w' c.
    exists [Submitted (build_transaction batch bh);
            Logged ERROR "Failed to process batch"], 0%nat.
    cbn. rewrite app_nil_r, <- app_assoc. repeat split; try lia. discriminate.
  - match goal with
    | |- context [insert_rows_v1 ?s ?b ?o0 ?d] =>
        destruct (insert_rows_v1_spec s b o0 d) as [Hfd [Hl [Hu Hs]]];
        destruct (insert_rows_v1 s b o0 d) as [d1 c1]
    end.
    cbn [fst snd emit land with_db db] in Hfd, Hl, Hu, Hs.
    intros H.
    assert (Hrows : exists k,
               fee_distributions d1 =
               fee_distributions (db w) ++ map (distribution_row sig) (firstn k batch) /\
               (c1 = Returned -> (List.length batch <= k)%nat)).
    { destruct o as [k|].
      - exists k. split; [assumption|]. intros E. rewrite E in Hs.
        destruct (k <? List.length batch)%nat eqn:Ek; [discriminate|].
        now apply Nat.ltb_ge in Ek.
      - exists (List.length batch). rewrite firstn_all. auto. }
    destruct Hrows as [k [Hfd' Hk]].
    destruct c1 as [|e]; inversion H; subst w' c; clear H.
    + exists [Submitted (build_transaction batch bh);
              Logged LOG "Batch transaction successful"], k.
      cbn [emit land with_db db trace signature_of].
      rewrite <- !app_assoc.
      repeat split; try apply Hl; auto.
    + exists [Submitted (build_transaction batch bh);
              Logged LOG "Batch transaction successful";
              Logged ERROR "Failed to process batch"], k.
      cbn [emit land with_db db trace signature_of].
      rewrite <- !app_assoc.
      repeat split; try apply Hl; auto.
      destruct o as [k0|]; [|discriminate].
      destruct (k0 <? List.length batch)%nat; inversion Hs. discriminate.
Qed.

Lemma firstn_slice {A} (k i j : nat) (l : list A) :
  (i <= j)%nat ->
  firstn k (slice i j l) = slice i (i + Nat.min k (j - i)) l.
Proof.
  intros H. unfold slice. rewrite firstn_firstn. f_equal. lia.
Qed.

Lemma batch_loop_v1_run (distributions : list Distribution) (env : nat -> Attempt) :
  forall fuel i b w w' c,
    i = (b * BATCH_SIZE)%nat ->
    (List.length distributions <= i + fuel)%nat ->
    batch_loop_v1 fuel i b distributions env w = (w', c) ->
    exists stop m t added,
      (b <= stop)%nat /\ (b * BATCH_SIZE <= m)%nat /\
      (stop = b \/ (stop - 1) * BATCH_SIZE < List.length distributions)%nat /\
      fee_distributions (db w') = fee_distributions (db w) ++ added /\
      map recorded added =
      map (fun dist => (recipient dist, amount dist))
          (slice (b * BATCH_SIZE) m distributions) /\
      users (db w') = users (db w) /\
      same_ledger (db w) (db w') /\
      trace w' = trace w ++ t /\
      sleeps t = [] /\
      match c with
      | Returned =>
          (List.length distributions <= m)%nat /\
          (List.length (submissions t) <= stop - b)%nat
      | Threw e =>
          (stop * BATCH_SIZE < List.length distributions)%nat /\
          (List.length (submissions t) <= S stop - b)%nat /\
          e <> FuelExhausted
      end.
Proof.
  assert (Hidle : forall b w,
             (List.length distributions <= b * BATCH_SIZE)%nat ->
             exists stop m t added,
               (b <= stop)%nat /\ (b * BATCH_SIZE <= m)%nat /\
               (stop = b \/
                (stop - 1) * BATCH_SIZE < List.length distributions)%nat /\
               fee_distributions (db w) = fee_distributions (db w) ++ added /\
               map recorded added =
               map (fun dist => (recipient dist, amount dist))
                   (slice (b * BATCH_SIZE) m distributions) /\
               users (db w) = users (db w) /\
               same_ledger (db w) (db w) /\
               trace w = trace w ++ t /\
               sleeps t = [] /\
               (List.length distributions <= m)%nat /\
               (List.length (submissions t) <= stop - b)%nat).
  { intros b w Hb. exists b, (b * BATCH_SIZE)%nat, [], [].
    rewrite slice_empty, !app_nil_r.
    repeat split; try lia; auto. cbn. lia. }
  induction fuel as [|fuel IH]; intros i b w w' c Hi Hfuel H.
  - cbn [batch_loop_v1] in H.
    replace (i <? List.length distributions)%nat with false in H
      by (symmetry; apply Nat.ltb_ge; lia).
    inversion H; subst w' c. apply Hidle. lia.
  - cbn [batch_loop_v1] in H.
    destruct (i <? List.length distributions)%nat eqn:Elt.
    + apply Nat.ltb_lt in Elt.
      replace (slice i (i + BATCH_SIZE) distributions)
        with (nth_batch b distributions) in H
        by (unfold nth_batch; subst i; reflexivity).
      destruct (process_batch_v1 (nth_batch b distributions) (env b) w)
        as [w1 c1] eqn:Ep.
      apply process_batch_v1_run in Ep.
      destruct Ep as [t1 [k [Ht1 [Hsl1 [Hn1 [Hfd1 [Hu1 [Hl1 Hc1]]]]]]]].
      destruct c1 as [|e].
      * rewrite firstn_all2 in Hfd1 by exact Hc1.
        apply IH in H; [|subst i; unfold BATCH_SIZE; lia|unfold BATCH_SIZE; lia].
        destruct H as [stop [m [t2 [added [Hstop [Hm [Hlast [Hfd [Hrec [Hu [Hl
                      [Ht [Hsl Hc]]]]]]]]]]]]].
        exists stop, m, (t1 ++ t2),
          (map (distribution_row (signature_of (env b))) (nth_batch b distributions)
           ++ added).
        split; [lia|]. split; [unfold BATCH_SIZE in *; lia|].
        split; [right; destruct Hlast as [->|Hlast];
                [replace (S b - 1)%nat with b by lia; lia | exact Hlast]|].
        split; [rewrite Hfd, Hfd1; symmetry; apply app_assoc|].
        split.
        { rewrite map_app, map_map, Hrec.
          cbn [recorded distribution_row FeeDistributions.receiver_address
               FeeDistributions.amount].
          rewrite <- map_app. f_equal. unfold nth_batch.
          replace (b * BATCH_SIZE + BATCH_SIZE)%nat with (S b * BATCH_SIZE)%nat
            by lia.
          apply slice_slice. unfold BATCH_SIZE in *. lia. }
        split; [congruence|].
        split; [eapply same_ledger_trans; eassumption|].
        split; [rewrite Ht, Ht1; symmetry; apply app_assoc|].
        split; [rewrite sleeps_app, Hsl1, Hsl; reflexivity|].
        rewrite submissions_app, length_app.
        destruct c as [|e]; [destruct Hc as [Hc1' Hc2] | destruct Hc as [Hc1' [Hc2 Hc3]]];
          repeat split; try assumption; lia.
      * inversion H; subst w' c; clear H.
        exists b, (b * BATCH_SIZE + Nat.min k BATCH_SIZE)%nat, t1,
          (map (distribution_row (signature_of (env b)))
               (firstn k (nth_batch b distributions))).
        split; [lia|]. split; [lia|]. split; [now left|].
        split; [assumption|]. split.
        { rewrite map_map.
          cbn [recorded distribution_row FeeDistributions.receiver_address
               FeeDistributions.amount].
          f_equal. unfold nth_batch. rewrite firstn_slice by lia.
          f_equal. lia. }
        split; [assumption|]. split; [assumption|]. split; [assumption|].
        split; [assumption|].
        split; [lia|]. split; [lia | assumption].
    + apply Nat.ltb_ge in Elt. inversion H; subst w' c. apply Hidle. lia.
Qed.

(** X13: the version without the retry loop submits each batch at most
    once and never waits; it applies no threshold; it never writes users.
    The rows it adds are one row for each distribution of a leading part
    of its input, in order, whatever the amount; when it returns, of the
    whole input. *)
Theorem X13_v1_sends_each_batch_once distributions env w w' c :
  sendSolanaTransactions_v1 distributions env w = (w', c) ->
  exists m t added,
    trace w' = trace w ++ t /\
    sleeps t = [] /\
    (List.length (submissions t) <=
     (List.length distributions + (BATCH_SIZE - 1)) / BATCH_SIZE)%nat /\
    fee_distributions (db w') = fee_distributions (db w) ++ added /\
    map recorded added =
    map (fun dist => (recipient dist, amount dist)) (firstn m distributions) /\
    users (db w') = users (db w) /\
    (c = Returned ->
     map recorded added =
     map (fun dist => (recipient dist, amount dist)) distributions).
Proof.
  intros H. unfold sendSolanaTransactions_v1 in H.
  apply batch_loop_v1_run in H; [|reflexivity|lia].
  destruct H as [stop [m [t [added [_ [_ [Hlast [Hfd [Hrec [Hu [_ [Ht [Hsl Hc]]]]]]]]]]]]].
  unfold slice in Hrec. rewrite Nat.sub_0_r in Hrec. cbn [Nat.mul skipn] in Hrec.
  exists m, t, added.
  split; [assumption|]. split; [assumption|]. split.
  - assert (Hk : (match c with Returned => stop | Threw _ => S stop end
                  <= (List.length distributions + (BATCH_SIZE - 1)) / BATCH_SIZE)%nat).
    { apply Nat.div_le_lower_bound; [unfold BATCH_SIZE; lia|].
      destruct c as [|e].
      - destruct Hlast as [->|Hlast]; unfold BATCH_SIZE in *; lia.
      - destruct Hc as [Hc _]. unfold BATCH_SIZE in *. lia. }
    destruct c as [|e]; [destruct Hc as [_ Hc] | destruct Hc as [_ [Hc _]]]; lia.
  - split; [assumption|]. split; [assumption|]. split; [assumption|].
    intros ->. destruct Hc as [Hm _]. rewrite Hrec, firstn_all2; auto.
Qed.

End Service.

(** * The properties on concrete passes *)

(** ** The cursor *)



(** C2, the code at the failing input: W1 is paid, W2 is below the
    threshold.  The pass commits cursor 2, past the event of W2, and
    leaves no row for W2.  When W2 later gets an event that, together
    with the skipped one, reaches the threshold, the next pass still
    aggregates nothing, while an aggregation from cursor 1 would pay
    W2. *)
Theorem C2_event_below_threshold_is_skipped :
  map creator (pass_rows db_two) = ["W1"] /\
  snd (processTransactions fee_master all_keys (quiet att_confirmed)
         (fresh db_two)) = Returned /\
  read_cursor
    (db (fst (processTransactions fee_master all_keys (quiet att_confirmed)
                (fresh db_two)))) = Some 2 /\
  map FeeDistributions.receiver_address
    (fee_distributions
       (db (fst (processTransactions fee_master all_keys (quiet att_confirmed)
                   (fresh db_two))))) = ["W1"] /\
  pass_rows
    (db (ingest later_event
           (fst (processTransactions fee_master all_keys (quiet att_confirmed)
                   (fresh db_two))))) = [] /\
  map creator
    (accumulated_fees 1
       (db (ingest later_event
              (fst (processTransactions fee_master all_keys
                      (quiet att_confirmed) (fresh db_two)))))) = ["W2"].
Proof.
  vm_compute. repeat split; reflexivity.
Qed.

(** ** Retries *)

(** C3, counterexample: the transfer of the first attempt is confirmed
    and its local write fails.  The batch is then submitted a second
    time, under a new blockhash, and both transfers land: W receives the
    payment twice, and only the second one is recorded. *)
Lemma C3_batch_is_sent_again_after_failed_write :
  att_write_fails 0%nat 0%nat = Confirmed "bh1" "sig1" (Some 2%nat) /\
  record_batch "sig1" (pass_distributions db_one) (Some 2%nat) db_one =
  (db_one, Threw DbError) /\
  snd (processTransactions fee_master all_keys (quiet att_write_fails)
         (fresh db_one)) = Returned /\
  submissions
    (trace (fst (processTransactions fee_master all_keys
                   (quiet att_write_fails) (fresh db_one)))) =
  [ build_transaction fee_master (pass_distributions db_one) "bh1";
    build_transaction fee_master (pass_distributions db_one) "bh2" ] /\
  chain (fst (processTransactions fee_master all_keys (quiet att_write_fails)
                (fresh db_one))) =
  [ ("sig1", build_transaction fee_master (pass_distributions db_one) "bh1");
    ("sig2", build_transaction fee_master (pass_distributions db_one) "bh2") ] /\
  map FeeDistributions.transaction_hash
    (fee_distributions
       (db (fst (processTransactions fee_master all_keys
                   (quiet att_write_fails) (fresh db_one))))) = ["sig2"].
Proof.
  vm_compute. repeat split; reflexivity.
Qed.

Lemma C3_witness :
  valid_keys all_keys two_recipients = true /\
  (0 < MAX_RETRIES)%nat /\
  (forall i, (i < 0)%nat ->
             attempt_ok two_recipients (att_write_fails 0%nat i) = false) /\
  att_write_fails 0%nat 0%nat = Confirmed "bh1" "sig1" (Some 2%nat) /\
  db_ok (2 * List.length two_recipients + 2) (Some 2%nat) = false /\
  chain (fst (process_batch fee_master all_keys two_recipients
                (att_write_fails 0%nat) (fresh db_two))) =
  chain (fresh db_two) ++
  flat_map (fun i => landed_by fee_master two_recipients (att_write_fails 0%nat i))
           (seq 0 0) ++
  ("sig1", build_transaction fee_master two_recipients "bh1") ::
  flat_map (fun i => landed_by fee_master two_recipients (att_write_fails 0%nat i))
           (seq 1 (attempts_made two_recipients (att_write_fails 0%nat) - 1)).
Proof.
  assert (H1 : valid_keys all_keys two_recipients = true) by reflexivity.
  assert (H2 : (0 < MAX_RETRIES)%nat) by (unfold MAX_RETRIES; lia).
  assert (H3 : forall i, (i < 0)%nat ->
                 attempt_ok two_recipients (att_write_fails 0%nat i) = false)
    by (intros i Hi; lia).
  assert (H4 : att_write_fails 0%nat 0%nat = Confirmed "bh1" "sig1" (Some 2%nat))
    by reflexivity.
  assert (H5 : db_ok (2 * List.length two_recipients + 2) (Some 2%nat) = false)
    by reflexivity.
  repeat (split; [assumption|]).
  exact (proj1 (C3_failed_local_write_restarts_the_attempt
                  fee_master all_keys two_recipients (att_write_fails 0%nat)
                  (fresh db_two) _ _ 0%nat "bh1" "sig1" (Some 2%nat)
                  H1 (surjective_pairing _) H2 H3 H4 H5)).
Defined.



(** C5, counterexample: the cluster rejects the transfer of the first
    attempt (confirmation.value.err).  The pass is not aborted: after
    the delay the batch is sent again, the second attempt is confirmed
    and the pass commits. *)
Lemma C5_rejected_transfer_is_retried :
  att_rejected 0%nat 0%nat = ConfirmErr "bh1" "sig1" /\
  snd (processTransactions fee_master all_keys (quiet att_rejected)
         (fresh db_one)) = Returned /\
  List.length
    (submissions
       (trace (fst (processTransactions fee_master all_keys (quiet att_rejected)
                      (fresh db_one))))) = 2%nat /\
  sleeps
    (trace (fst (processTransactions fee_master all_keys (quiet att_rejected)
                   (fresh db_one)))) = [2000] /\
  read_cursor
    (db (fst (processTransactions fee_master all_keys (quiet att_rejected)
                (fresh db_one)))) = Some 1.
Proof.
  vm_compute. repeat split; reflexivity.
Qed.

Lemma C5_witness :
  process_batch fee_master all_keys two_recipients (att_rejected 0%nat)
    (fresh db_two) =
  (fst (process_batch fee_master all_keys two_recipients (att_rejected 0%nat)
          (fresh db_two)),
   snd (process_batch fee_master all_keys two_recipients (att_rejected 0%nat)
          (fresh db_two))) /\
  (attempts_made two_recipients (att_rejected 0%nat) <= MAX_RETRIES)%nat /\
  MAX_RETRIES = 3%nat.
Proof.
  assert (H : process_batch fee_master all_keys two_recipients
                (att_rejected 0%nat) (fresh db_two) =
              (fst (process_batch fee_master all_keys two_recipients
                      (att_rejected 0%nat) (fresh db_two)),
               snd (process_batch fee_master all_keys two_recipients
                      (att_rejected 0%nat) (fresh db_two))))
    by (vm_compute; reflexivity).
  split; [exact H|].
  pose proof (C5_every_failure_is_retried
                fee_master all_keys two_recipients (att_rejected 0%nat)
                (fresh db_two) _ _ H) as P.
  cbn [valid_keys two_recipients forallb all_keys andb] in P.
  destruct P as [P1 [P2 _]]. split; assumption.
Defined.

Lemma C6_witness :
  (0 * BATCH_SIZE < List.length (pass_distributions (db (fresh db_two))))%nat /\
  (forall j, (j < MAX_RETRIES)%nat ->
             attempt_ok (nth_batch 0 (pass_distributions (db (fresh db_two))))
                        (attempts (quiet att_down) 0%nat j) = false) /\
  exists w' e,
    processTransactions fee_master all_keys (quiet att_down) (fresh db_two) =
    (w', Threw e) /\
    e <> FuelExhausted /\
    transaction_tracker (db w') = transaction_tracker (db (fresh db_two)) /\
    read_cursor (db w') = read_cursor (db (fresh db_two)) /\
    paid_to (map recipient (nth_batch 0 (pass_distributions (db (fresh db_two)))))
            (fee_distributions (db w')) =
    paid_to (map recipient (nth_batch 0 (pass_distributions (db (fresh db_two)))))
            (fee_distributions (db (fresh db_two))) /\
    db (handleCron fee_master all_keys (quiet att_down) (fresh db_two)) = db w'.
Proof.
  assert (H1 : (0 * BATCH_SIZE <
                List.length (pass_distributions (db (fresh db_two))))%nat)
    by (vm_compute; lia).
  assert (H2 : forall j, (j < MAX_RETRIES)%nat ->
                 attempt_ok (nth_batch 0 (pass_distributions (db (fresh db_two))))
                            (attempts (quiet att_down) 0%nat j) = false)
    by (intros j Hj; reflexivity).
  split; [exact H1|]. split; [exact H2|].
  exact (C6_exhausted_retries_abort_the_pass
           fee_master all_keys (quiet att_down) (fresh db_two) 0%nat H1 H2).
Defined.




(** ** The timer *)

(** C9, counterexample: the timer fires again while the first pass is
    waiting for its payments.  The second pass is started at once; both
    are in flight with the same aggregated row, both pay W for the one
    event, and both payments are recorded. *)
Lemma C9_two_passes_run_at_once :
  running (run fee_master all_keys (idle (fresh db_one)) overlapping) =
  [AtSend (pass_rows db_one); AtSend (pass_rows db_one)] /\
  pass_rows db_one <> [] /\
  List.length (transactions db_one) = 1%nat /\
  map (fun p => (fst p, instructions (snd p)))
      (chain (world (run fee_master all_keys (idle (fresh db_one))
                       overlapping_to_the_end))) =
  [ ("sig", [ {| fromPubkey := fee_master; toPubkey := "W";
                 lamports := 19800000 |} ]);
    ("sig'", [ {| fromPubkey := fee_master; toPubkey := "W";
                  lamports := 19800000 |} ]) ] /\
  map FeeDistributions.receiver_address
      (fee_distributions
         (db (world (run fee_master all_keys (idle (fresh db_one))
                       overlapping_to_the_end)))) = ["W"; "W"].
Proof.
  vm_compute. repeat split; try reflexivity; discriminate.
Qed.

Lemma C9_witness :
  (List.length (running (idle (fresh db_one))) <= 1)%nat /\
  spaced fee_master all_keys (idle (fresh db_one)) one_at_a_time /\
  (forall s', running (step fee_master all_keys s' Tick) = running s' ++ [AtStart] /\
              world (step fee_master all_keys s' Tick) = world s') /\
  (forall n,
      (List.length
         (running (run fee_master all_keys (idle (fresh db_one))
                     (firstn n one_at_a_time))) <= 1)%nat).
Proof.
  assert (H1 : (List.length (running (idle (fresh db_one))) <= 1)%nat)
    by (cbn; lia).
  assert (H2 : spaced fee_master all_keys (idle (fresh db_one)) one_at_a_time).
  { vm_compute. repeat split; intros H; try reflexivity; discriminate H. }
  split; [exact H1|]. split; [exact H2|].
  exact (C9_every_tick_starts_a_pass
           fee_master all_keys (idle (fresh db_one)) one_at_a_time H1 H2).
Defined.


(** ** The further properties on concrete passes *)

Lemma X1_witness :
  (forall r, In r (transaction_tracker db_tracked) -> Tracker.timestamp r < 100) /\
  read_cursor (insert_tracker (Some 2) 100 db_tracked) = Some 2 /\
  (exists r, In r (transaction_tracker db_tracked) /\ 50 < Tracker.timestamp r) /\
  read_cursor (insert_tracker (Some 2) 50 db_tracked) = read_cursor db_tracked.
Proof.
  assert (H1 : forall r, In r (transaction_tracker db_tracked) ->
                         Tracker.timestamp r < 100).
  { intros r [<-|[<-|[]]]; cbn; lia. }
  assert (H2 : exists r, In r (transaction_tracker db_tracked) /\
                         50 < Tracker.timestamp r).
  { exists (tracker_row (Some 1) 70). split; [left; reflexivity | cbn; lia]. }
  split; [exact H1|].
  split; [exact (proj1 (X1_inserted_cursor_is_read_back db_tracked (Some 2) 100) H1)|].
  split; [exact H2|].
  exact (proj2 (X1_inserted_cursor_is_read_back db_tracked (Some 2) 50) H2).
Defined.

Lemma X2_witness :
  pass_rows (db (fresh db_tracked)) <> [] /\
  processTransactions fee_master all_keys (quiet att_confirmed) (fresh db_tracked) =
  (fst (processTransactions fee_master all_keys (quiet att_confirmed)
          (fresh db_tracked)), Returned) /\
  (forall r, In r (transaction_tracker (db (fresh db_tracked))) ->
             Tracker.timestamp r < now (quiet att_confirmed)) /\
  exists m,
    read_cursor
      (db (fst (processTransactions fee_master all_keys (quiet att_confirmed)
                  (fresh db_tracked)))) = Some m /\
    or_zero (read_cursor (db (fresh db_tracked))) < m /\
    transactions
      (db (fst (processTransactions fee_master all_keys (quiet att_confirmed)
                  (fresh db_tracked)))) =
    transactions (db (fresh db_tracked)) ++ ingested (quiet att_confirmed) /\
    (forall t,
        In t (transactions
                (db (fst (processTransactions fee_master all_keys
                            (quiet att_confirmed) (fresh db_tracked))))) ->
        Transactions.id t <= m) /\
    pass_rows
      (db (fst (processTransactions fee_master all_keys (quiet att_confirmed)
                  (fresh db_tracked)))) = [].
Proof.
  assert (H1 : pass_rows (db (fresh db_tracked)) <> [])
    by (vm_compute; discriminate).
  assert (H2 : processTransactions fee_master all_keys (quiet att_confirmed)
                 (fresh db_tracked) =
               (fst (processTransactions fee_master all_keys
                       (quiet att_confirmed) (fresh db_tracked)), Returned))
    by (vm_compute; reflexivity).
  assert (H3 : forall r, In r (transaction_tracker (db (fresh db_tracked))) ->
                         Tracker.timestamp r < now (quiet att_confirmed)).
  { intros r [<-|[<-|[]]]; cbn; lia. }
  split; [exact H1|]. split; [exact H2|]. split; [exact H3|].
  exact (X2_committed_pass_moves_cursor_past_every_event
           fee_master all_keys (quiet att_confirmed) (fresh db_tracked) _
           H1 H2 H3).
Defined.

Lemma X3_witness :
  (forall r,
      In r (map fst (joined (or_zero (read_cursor (db (fresh db_small))))
                            (db (fresh db_small)))) ->
      (group_sum (joined (or_zero (read_cursor (db (fresh db_small))))
                         (db (fresh db_small))) r < MIN_AMOUNT_THRESHOLD)%Q) /\
  snd (processTransactions fee_master all_keys (quiet att_confirmed)
         (fresh db_small)) = Returned /\
  db (fst (processTransactions fee_master all_keys (quiet att_confirmed)
             (fresh db_small))) = db (fresh db_small) /\
  chain (fst (processTransactions fee_master all_keys (quiet att_confirmed)
                (fresh db_small))) = chain (fresh db_small) /\
  handleCron fee_master all_keys (quiet att_confirmed) (fresh db_small) =
  fst (processTransactions fee_master all_keys (quiet att_confirmed)
         (fresh db_small)).
Proof.
  assert (H1 : forall r,
             In r (map fst (joined (or_zero (read_cursor (db (fresh db_small))))
                                   (db (fresh db_small)))) ->
             (group_sum (joined (or_zero (read_cursor (db (fresh db_small))))
                                (db (fresh db_small))) r <
              MIN_AMOUNT_THRESHOLD)%Q).
  { intros r Hr. vm_compute in Hr. destruct Hr as [<-|[]]. reflexivity. }
  split; [exact H1|].
  exact (X3_pass_with_nothing_payable_changes_nothing
           fee_master all_keys (quiet att_confirmed) (fresh db_small) H1).
Defined.

Lemma X4_witness :
  processTransactions fee_master all_keys env_commit_throws (fresh db_one) =
  (fst (processTransactions fee_master all_keys env_commit_throws (fresh db_one)),
   Threw DbError) /\
  List.length
    (fee_distributions
       (db (fst (processTransactions fee_master all_keys env_commit_throws
                   (fresh db_one))))) = 1%nat /\
  pass_rows (db (fresh db_one)) <> [] /\
  transaction_tracker
    (db (fst (processTransactions fee_master all_keys env_commit_throws
                (fresh db_one)))) = transaction_tracker (db (fresh db_one)) /\
  (ingested env_commit_throws = [] ->
   pass_rows
     (db (fst (processTransactions fee_master all_keys env_commit_throws
                 (fresh db_one)))) = pass_rows (db (fresh db_one))).
Proof.
  assert (H : processTransactions fee_master all_keys env_commit_throws
                (fresh db_one) =
              (fst (processTransactions fee_master all_keys env_commit_throws
                      (fresh db_one)), Threw DbError))
    by (vm_compute; reflexivity).
  split; [exact H|]. split; [vm_compute; reflexivity|].
  destruct (X4_thrown_pass_is_repeated
              fee_master all_keys env_commit_throws (fresh db_one) _ _ H)
    as [P1 [P2 [_ [_ [_ [P6 _]]]]]].
  split; [exact P1|]. split; [exact P2 | exact P6].
Defined.




Lemma X8_witness :
  sendSolanaTransactions fee_master all_keys twelve att_rejected (fresh db_one) =
  (fst (sendSolanaTransactions fee_master all_keys twelve att_rejected
          (fresh db_one)),
   snd (sendSolanaTransactions fee_master all_keys twelve att_rejected
          (fresh db_one))) /\
  batch_count (validDistributions_of twelve) = 2%nat /\
  exists t,
    trace (fst (sendSolanaTransactions fee_master all_keys twelve att_rejected
                  (fresh db_one))) = trace (fresh db_one) ++ t /\
    (List.length (submissions t) <=
     3 * batch_count (validDistributions_of twelve))%nat /\
    (List.length (sleeps t) <=
     2 * batch_count (validDistributions_of twelve))%nat /\
    Forall (eq 2000) (sleeps t).
Proof.
  assert (H : sendSolanaTransactions fee_master all_keys twelve att_rejected
                (fresh db_one) =
              (fst (sendSolanaTransactions fee_master all_keys twelve
                      att_rejected (fresh db_one)),
               snd (sendSolanaTransactions fee_master all_keys twelve
                      att_rejected (fresh db_one))))
    by (vm_compute; reflexivity).
  split; [exact H|]. split; [vm_compute; reflexivity|].
  exact (X8_submissions_and_delays_are_bounded
           fee_master all_keys twelve att_rejected (fresh db_one) _ _ H).
Defined.

Lemma X9_witness :
  (forall b,
      (b * BATCH_SIZE < List.length (validDistributions_of twelve))%nat ->
      valid_keys all_keys (nth_batch b (validDistributions_of twelve)) = true /\
      attempt_ok (nth_batch b (validDistributions_of twelve))
                 (att_confirmed b 0%nat) = true) /\
  sendSolanaTransactions fee_master all_keys twelve att_confirmed (fresh db_one) =
  (fst (sendSolanaTransactions fee_master all_keys twelve att_confirmed
          (fresh db_one)),
   snd (sendSolanaTransactions fee_master all_keys twelve att_confirmed
          (fresh db_one))) /\
  snd (sendSolanaTransactions fee_master all_keys twelve att_confirmed
         (fresh db_one)) = Returned.
Proof.
  assert (H1 : forall b,
             (b * BATCH_SIZE < List.length (validDistributions_of twelve))%nat ->
             valid_keys all_keys (nth_batch b (validDistributions_of twelve)) =
             true /\
             attempt_ok (nth_batch b (validDistributions_of twelve))
                        (att_confirmed b 0%nat) = true).
  { intros b _. split; [|reflexivity].
    apply forallb_forall. intros dist _. reflexivity. }
  assert (H2 : sendSolanaTransactions fee_master all_keys twelve att_confirmed
                 (fresh db_one) =
               (fst (sendSolanaTransactions fee_master all_keys twelve
                       att_confirmed (fresh db_one)),
                snd (sendSolanaTransactions fee_master all_keys twelve
                       att_confirmed (fresh db_one))))
    by (vm_compute; reflexivity).
  split; [exact H1|]. split; [exact H2|].
  exact (proj1 (X9_one_transfer_for_each_valid_distribution
                  fee_master all_keys twelve att_confirmed (fresh db_one) _ _
                  H1 H2)).
Defined.

Lemma X10_witness :
  valid_keys all_keys
    (nth_batch 0 (map distribution_of
                      (summed_quantities (or_zero (read_cursor (db (fresh db_two))))
                                         (db (fresh db_two))))) = true /\
  attempts (quiet att_second_insert_throws) 0%nat 0%nat =
  Confirmed "bh" "sig" (Some 1%nat) /\
  (1 < List.length
         (nth_batch 0 (map distribution_of
                           (summed_quantities
                              (or_zero (read_cursor (db (fresh db_two))))
                              (db (fresh db_two))))))%nat /\
  snd (processTransactions_v1 fee_master all_keys (quiet att_second_insert_throws)
         (fresh db_two)) = Threw DbError /\
  List.length
    (fee_distributions
       (db (fst (processTransactions_v1 fee_master all_keys
                   (quiet att_second_insert_throws) (fresh db_two))))) = 1%nat /\
  transaction_tracker
    (db (fst (processTransactions_v1 fee_master all_keys
                (quiet att_second_insert_throws) (fresh db_two)))) =
  transaction_tracker (db (fresh db_two)).
Proof.
  assert (H1 : valid_keys all_keys
                 (nth_batch 0 (map distribution_of
                                   (summed_quantities
                                      (or_zero (read_cursor (db (fresh db_two))))
                                      (db (fresh db_two))))) = true)
    by (vm_compute; reflexivity).
  assert (H2 : attempts (quiet att_second_insert_throws) 0%nat 0%nat =
               Confirmed "bh" "sig" (Some 1%nat)) by reflexivity.
  assert (H3 : (1 < List.length
                      (nth_batch 0 (map distribution_of
                                        (summed_quantities
                                           (or_zero (read_cursor (db (fresh db_two))))
                                           (db (fresh db_two))))))%nat)
    by (vm_compute; lia).
  split; [exact H1|]. split; [exact H2|]. split; [exact H3|].
  destruct (X10_v1_rows_before_a_failed_insert_stay
              fee_master all_keys (quiet att_second_insert_throws) (fresh db_two)
              _ _ "bh" "sig" 1%nat H1 H2 H3 (surjective_pairing _))
    as [P1 [_ [P3 [_ P5]]]].
  split; [exact P1|]. split; [|exact P5].
  rewrite P3. vm_compute. reflexivity.
Defined.

Lemma X11_witness :
  joined (or_zero (read_cursor (db (fresh db_done)))) (db (fresh db_done)) = [] /\
  db (fst (processTransactions_v0 130 false (fresh db_done))) =
  db (fresh db_done) /\
  joined (or_zero (read_cursor (db (fresh db_one)))) (db (fresh db_one)) <> [] /\
  db (fst (processTransactions_v0 130 false (fresh db_one))) =
  insert_tracker (max_id (transactions (db (fresh db_one)))) 130
                 (db (fresh db_one)).
Proof.
  assert (H1 : joined (or_zero (read_cursor (db (fresh db_done))))
                      (db (fresh db_done)) = []) by (vm_compute; reflexivity).
  assert (H2 : joined (or_zero (read_cursor (db (fresh db_one))))
                      (db (fresh db_one)) <> []) by (vm_compute; discriminate).
  split; [exact H1|].
  split; [exact (proj2 (proj1 (proj2 (X11_v0_pass_only_moves_the_cursor
                                        130 false (fresh db_done))) H1))|].
  split; [exact H2|].
  exact (proj2 (proj2 (proj2 (X11_v0_pass_only_moves_the_cursor
                                130 false (fresh db_one))) H2)).
Defined.


Lemma X13_witness :
  sendSolanaTransactions_v1 fee_master all_keys twelve (att_confirmed 0%nat)
    (fresh db_one) =
  (fst (sendSolanaTransactions_v1 fee_master all_keys twelve
          (att_confirmed 0%nat) (fresh db_one)),
   snd (sendSolanaTransactions_v1 fee_master all_keys twelve
          (att_confirmed 0%nat) (fresh db_one))) /\
  exists m t added,
    trace (fst (sendSolanaTransactions_v1 fee_master all_keys twelve
                  (att_confirmed 0%nat) (fresh db_one))) =
    trace (fresh db_one) ++ t /\
    sleeps t = [] /\
    (List.length (submissions t) <=
     (List.length twelve + (BATCH_SIZE - 1)) / BATCH_SIZE)%nat /\
    fee_distributions
      (db (fst (sendSolanaTransactions_v1 fee_master all_keys twelve
                  (att_confirmed 0%nat) (fresh db_one)))) =
    fee_distributions (db (fresh db_one)) ++ added /\
    map recorded added =
    map (fun dist => (recipient dist, amount dist)) (firstn m twelve) /\
    users
      (db (fst (sendSolanaTransactions_v1 fee_master all_keys twelve
                  (att_confirmed 0%nat) (fresh db_one)))) =
    users (db (fresh db_one)) /\
    (snd (sendSolanaTransactions_v1 fee_master all_keys twelve
            (att_confirmed 0%nat) (fresh db_one)) = Returned ->
     map recorded added =
     map (fun dist => (recipient dist, amount dist)) twelve).
Proof.
  assert (H : sendSolanaTransactions_v1 fee_master all_keys twelve
                (att_confirmed 0%nat) (fresh db_one) =
              (fst (sendSolanaTransactions_v1 fee_master all_keys twelve
                      (att_confirmed 0%nat) (fresh db_one)),
               snd (sendSolanaTransactions_v1 fee_master all_keys twelve
                      (att_confirmed 0%nat) (fresh db_one))))
    by (vm_compute; reflexivity).
  split; [exact H|].
  exact (X13_v1_sends_each_batch_once
           fee_master all_keys twelve (att_confirmed 0%nat) (fresh db_one) _ _ H).
Defined.
